(** * Multi-agent research example: coordinator, shared state manager,
      and the agent registration route

    A shallow embedding of

    - [examples/multi-agent-research/shared/state.js] (class [StateManager]),
    - the coordinator ([decomposeQuery], [findAgentsByCapability],
      [delegateTask], [executeSubtasks] and the [POST /research] handler),
    - [src/lib/storage.ts] and [src/app/api/auth/register/route.ts].

    JavaScript objects that are mutated through several references (the
    subtask objects, which sit both in [task.subtasks] and in the sorted copy
    walked by [executeSubtasks]) live in an explicit heap; everything else is
    threaded through a state-and-exception monad.  [Date.now()] and [fetch]
    are oracles; the results of [uuidv4()] are arguments of the handlers.
    One request handler runs at a time: what other handlers could do to the
    state while [executeSubtasks] awaits an answer is not modelled. *)

From Stdlib Require Import ZArith List Sorted Permutation.
From Stdlib Require Ascii String.
From stdpp Require Import gmap strings list fin_maps pretty.

Set Warnings "-register-all".
Open Scope Z_scope.

(** ** JSON values and JavaScript truthiness *)

(** Numbers are restricted to integers: the code only ever tests a JSON
    value for truthiness, which for a number means "not zero". *)
Inductive JSON : Type :=
| JNull
| JBool (b : bool)
| JNum (n : Z)
| JStr (s : string)
| JArr (items : list JSON)
| JObj (fields : list (string * JSON)).

Definition truthy (v : JSON) : bool :=
  match v with
  | JNull => false
  | JBool b => b
  | JNum n => negb (n =? 0)
  | JStr s => negb (String.eqb s "")
  | JArr _ => true
  | JObj _ => true
  end.

(** [a || b] on JSON values. *)
Definition js_or (a : option JSON) (b : JSON) : JSON :=
  match a with
  | Some v => if truthy v then v else b
  | None => b
  end.

(** ** Data model *)

(** [status] of tasks and subtasks: ['pending' | 'in-progress' |
    'completed' | 'failed']. *)
Inductive Status : Type := pending | in_progress | completed | failed.

Global Instance Status_eq_dec : EqDecision Status.
Proof. solve_decision. Defined.

(** [type] of a subtask: ['research' | 'summarize'].  Dependencies are
    named by type. *)
Inductive SubtaskType : Type := research | summarize.

Global Instance SubtaskType_eq_dec : EqDecision SubtaskType.
Proof. solve_decision. Defined.

Definition type_name (t : SubtaskType) : string :=
  match t with
  | research => "research"
  | summarize => "summarize"
  end.

(** What [decomposeQuery] builds: a subtask before [addSubtask] gives it an
    id, a status and a creation time.  [sp_dependsOn = None] is an absent
    [dependsOn] property. *)
Record SubtaskSpec : Type := {
  sp_type : SubtaskType;
  sp_description : string;
  sp_capability : string;
  sp_priority : Z;
  sp_dependsOn : option (list SubtaskType)
}.

(** A subtask object.  [updatedAt] and [result] are absent until
    [updateSubtask] sets them. *)
Record Subtask : Type := {
  st_id : string;
  st_status : Status;
  st_createdAt : Z;
  st_spec : SubtaskSpec;
  st_updatedAt : option Z;
  st_result : option JSON
}.

(** References to subtask objects are heap indices. *)
Abbreviation ref := nat (only parsing).

Record TaskData : Type := {
  td_query : string;
  td_depth : JSON;
  td_type : string
}.

Record Report : Type := {
  r_taskId : string;
  r_query : string;
  r_depth : JSON;
  r_completedAt : Z;
  r_findings : JSON;
  r_summary : JSON
}.

(** [task.results[agentName] = { data, timestamp }]. *)
Record StoredResult : Type := {
  sr_data : JSON;
  sr_timestamp : Z
}.

Record Task : Type := {
  t_id : string;
  t_status : Status;
  t_createdAt : Z;
  t_updatedAt : Z;
  t_data : TaskData;
  t_subtasks : list ref;
  t_results : gmap string StoredResult;
  t_report : option Report
}.

Record Session : Type := {
  s_id : string;
  s_createdAt : Z;
  s_updatedAt : Z
}.

Inductive Presence : Type := online | offline.

(** What an agent sends when it registers with the coordinator. *)
Record AgentInfo : Type := {
  ai_name : string;
  ai_url : string;
  ai_capabilities : list string
}.

(** An entry of [StateManager.agentStatus]. *)
Record AgentStatus : Type := {
  as_name : string;
  as_status : Presence;
  as_lastSeen : Z;
  as_info : AgentInfo
}.

(** An entry of the coordinator's own [agents] map. *)
Record Agent : Type := {
  ag_info : AgentInfo;
  ag_lastSeen : Z
}.

(** [coordinator/config.js]. *)
Record Config : Type := {
  port : Z;
  serverUrl : string;
  maxConcurrentTasks : Z;
  taskTimeout : Z;
  retryAttempts : Z;
  retryDelay : Z
}.

(** ** HTTP as seen by [delegateTask] *)

(** [{ ...subtask, previousResults }]: the subtask object as it is when the
    request is built.  A [None] under a dependency is [undefined]. *)
Record TaskPayload : Type := {
  tp_subtask : Subtask;
  tp_previousResults : list (SubtaskType * option JSON)
}.

(** One call of [fetch]: always a POST of [{ taskId, subtask }] with an
    abort timeout. *)
Record HttpRequest : Type := {
  rq_url : string;
  rq_taskId : string;
  rq_payload : TaskPayload;
  rq_timeout : Z
}.

(** What [fetch] followed by [response.json()] can do. *)
Inductive FetchResult : Type :=
| FetchRejected (message : string)
| Responded (status : Z) (body : string + JSON).

Inductive ConsoleLine : Type :=
| Log (line : string)
| Error (line : string).

(** ** The world: state manager singleton, heap, coordinator registry,
       console and network history *)

(** [w_results] is the [results] object of the [executeSubtasks] call in
    progress: it is assigned inside a [try] block, so it has to survive a
    throw like every other mutation.  The model runs one request handler at
    a time, so one slot is enough. *)

Record World : Type := {
  w_tasks : gmap string Task;
  w_sessions : gmap string Session;
  w_agentStatus : gmap string AgentStatus;
  w_heap : list Subtask;
  w_agents : list (string * Agent);
  w_console : list ConsoleLine;
  w_requests : list HttpRequest;
  w_ticks : nat;
  w_results : list (SubtaskType * JSON)
}.

Definition set_tasks (f : gmap string Task → gmap string Task) (w : World) : World :=
  {| w_tasks := f (w_tasks w); w_sessions := w_sessions w;
     w_agentStatus := w_agentStatus w; w_heap := w_heap w;
     w_agents := w_agents w; w_console := w_console w;
     w_requests := w_requests w; w_ticks := w_ticks w;
     w_results := w_results w |}.

Definition set_sessions (f : gmap string Session → gmap string Session) (w : World) : World :=
  {| w_tasks := w_tasks w; w_sessions := f (w_sessions w);
     w_agentStatus := w_agentStatus w; w_heap := w_heap w;
     w_agents := w_agents w; w_console := w_console w;
     w_requests := w_requests w; w_ticks := w_ticks w;
     w_results := w_results w |}.

Definition set_agentStatus (f : gmap string AgentStatus → gmap string AgentStatus)
    (w : World) : World :=
  {| w_tasks := w_tasks w; w_sessions := w_sessions w;
     w_agentStatus := f (w_agentStatus w); w_heap := w_heap w;
     w_agents := w_agents w; w_console := w_console w;
     w_requests := w_requests w; w_ticks := w_ticks w;
     w_results := w_results w |}.

Definition set_heap (f : list Subtask → list Subtask) (w : World) : World :=
  {| w_tasks := w_tasks w; w_sessions := w_sessions w;
     w_agentStatus := w_agentStatus w; w_heap := f (w_heap w);
     w_agents := w_agents w; w_console := w_console w;
     w_requests := w_requests w; w_ticks := w_ticks w;
     w_results := w_results w |}.

Definition set_agents (f : list (string * Agent) → list (string * Agent))
    (w : World) : World :=
  {| w_tasks := w_tasks w; w_sessions := w_sessions w;
     w_agentStatus := w_agentStatus w; w_heap := w_heap w;
     w_agents := f (w_agents w); w_console := w_console w;
     w_requests := w_requests w; w_ticks := w_ticks w;
     w_results := w_results w |}.

Definition set_console (f : list ConsoleLine → list ConsoleLine) (w : World) : World :=
  {| w_tasks := w_tasks w; w_sessions := w_sessions w;
     w_agentStatus := w_agentStatus w; w_heap := w_heap w;
     w_agents := w_agents w; w_console := f (w_console w);
     w_requests := w_requests w; w_ticks := w_ticks w;
     w_results := w_results w |}.

Definition set_requests (f : list HttpRequest → list HttpRequest) (w : World) : World :=
  {| w_tasks := w_tasks w; w_sessions := w_sessions w;
     w_agentStatus := w_agentStatus w; w_heap := w_heap w;
     w_agents := w_agents w; w_console := w_console w;
     w_requests := f (w_requests w); w_ticks := w_ticks w;
     w_results := w_results w |}.

Definition set_results (f : list (SubtaskType * JSON) → list (SubtaskType * JSON))
    (w : World) : World :=
  {| w_tasks := w_tasks w; w_sessions := w_sessions w;
     w_agentStatus := w_agentStatus w; w_heap := w_heap w;
     w_agents := w_agents w; w_console := w_console w;
     w_requests := w_requests w; w_ticks := w_ticks w;
     w_results := f (w_results w) |}.

Definition set_ticks (f : nat → nat) (w : World) : World :=
  {| w_tasks := w_tasks w; w_sessions := w_sessions w;
     w_agentStatus := w_agentStatus w; w_heap := w_heap w;
     w_agents := w_agents w; w_console := w_console w;
     w_requests := w_requests w; w_ticks := f (w_ticks w);
     w_results := w_results w |}.

(** The world of a freshly started coordinator process. *)
Definition empty_world : World :=
  {| w_tasks := ∅; w_sessions := ∅; w_agentStatus := ∅; w_heap := [];
     w_agents := []; w_console := []; w_requests := []; w_ticks := 0%nat;
     w_results := [] |}.

(** ** Computations: state plus exceptions *)

(** A computation ends normally with a value or throws an [Error] with a
    message; in both cases the mutations made so far stay. *)
Inductive Completion (A : Type) : Type :=
| Normal (a : A)
| Throw (message : string).
Arguments Normal {A} a.
Arguments Throw {A} message.

Definition JS (A : Type) : Type := World → Completion A * World.

Definition ret {A} (a : A) : JS A := λ w, (Normal a, w).

Definition bind {A B} (c : JS A) (k : A → JS B) : JS B :=
  λ w, match c w with
       | (Normal a, w') => k a w'
       | (Throw m, w') => (Throw m, w')
       end.

Definition throw {A} (message : string) : JS A := λ w, (Throw message, w).

(** [try { c } catch (error) { h error.message }]. *)
Definition try_catch {A} (c : JS A) (h : string → JS A) : JS A :=
  λ w, match c w with
       | (Normal a, w') => (Normal a, w')
       | (Throw m, w') => h m w'
       end.

Definition gets {A} (f : World → A) : JS A := λ w, (Normal (f w), w).
Definition modify (f : World → World) : JS unit := λ w, (Normal tt, f w).

Notation "'let*' x ':=' c 'in' k" := (bind c (λ x, k))
  (at level 10, x name, c at level 100, k at level 200).
Notation "c ';;' k" := (bind c (λ _, k))
  (at level 100, k at level 200, right associativity).

Definition console_log (line : string) : JS unit :=
  modify (set_console (λ c, c ++ [Log line])).
Definition console_error (line : string) : JS unit :=
  modify (set_console (λ c, c ++ [Error line])).

(** Reading through a reference.  A reference outside the heap plays the
    role of [undefined], on which a property access throws. *)
Definition deref (r : ref) : JS Subtask :=
  λ w, match w_heap w !! r with
       | Some s => (Normal s, w)
       | None => (Throw "TypeError: Cannot read properties of undefined", w)
       end.

(** ** Oracles *)

(** [date_now n] is what the [n]-th call of [Date.now()] returns;
    [fetch n rq] is what happens to request [rq] when [n] requests were
    sent before it. *)
Record Env : Type := {
  date_now : nat → Z;
  fetch : nat → HttpRequest → FetchResult
}.

Section Program.

Context (env : Env) (config : Config).

Definition Date_now : JS Z :=
  λ w, (Normal (date_now env (w_ticks w)), set_ticks S w).

(** ** shared/state.js: class StateManager *)

Definition task_not_found (taskId : string) : string :=
  "Task " +:+ taskId +:+ " not found".

Definition subtask_not_found (subtaskId : string) : string :=
  "Subtask " +:+ subtaskId +:+ " not found".

(** [const task = this.tasks.get(taskId); if (!task) throw ...] *)
Definition task_or_throw (taskId : string) : JS Task :=
  λ w, match w_tasks w !! taskId with
       | Some task => (Normal task, w)
       | None => (Throw (task_not_found taskId), w)
       end.

Definition createTask (taskId : string) (taskData : TaskData) : JS unit :=
  let* createdAt := Date_now in
  let* updatedAt := Date_now in
  modify (set_tasks (insert taskId
    {| t_id := taskId; t_status := pending;
       t_createdAt := createdAt; t_updatedAt := updatedAt;
       t_data := taskData; t_subtasks := []; t_results := ∅;
       t_report := None |})).

Definition getTask (taskId : string) : JS (option Task) :=
  gets (λ w, w_tasks w !! taskId).

(** [updates] is [{}] ([None]) or [{ report }]. *)
Definition updateTask (taskId : string) (status : Status)
    (updates : option Report) : JS unit :=
  let* task := task_or_throw taskId in
  let* now := Date_now in
  modify (set_tasks (insert taskId
    {| t_id := t_id task; t_status := status;
       t_createdAt := t_createdAt task; t_updatedAt := now;
       t_data := t_data task; t_subtasks := t_subtasks task;
       t_results := t_results task;
       t_report := match updates with
                   | Some report => Some report
                   | None => t_report task
                   end |})).

Definition task_touch (now : Z) (task : Task) : Task :=
  {| t_id := t_id task; t_status := t_status task;
     t_createdAt := t_createdAt task; t_updatedAt := now;
     t_data := t_data task; t_subtasks := t_subtasks task;
     t_results := t_results task; t_report := t_report task |}.

Definition task_push (r : ref) (task : Task) : Task :=
  {| t_id := t_id task; t_status := t_status task;
     t_createdAt := t_createdAt task; t_updatedAt := t_updatedAt task;
     t_data := t_data task; t_subtasks := t_subtasks task ++ [r];
     t_results := t_results task; t_report := t_report task |}.

Definition task_store (agentName : string) (sr : StoredResult) (task : Task) : Task :=
  {| t_id := t_id task; t_status := t_status task;
     t_createdAt := t_createdAt task; t_updatedAt := t_updatedAt task;
     t_data := t_data task; t_subtasks := t_subtasks task;
     t_results := <[agentName := sr]> (t_results task);
     t_report := t_report task |}.

(** Allocation of a new subtask object. *)
Definition alloc (st : Subtask) : JS ref :=
  λ w, (Normal (length (w_heap w)), set_heap (λ h, h ++ [st]) w).

Definition addSubtask (taskId : string) (subtask : SubtaskSpec) : JS unit :=
  let* task := task_or_throw taskId in
  let* createdAt := Date_now in
  let* r := alloc
    {| st_id := taskId +:+ "-" +:+ pretty (length (t_subtasks task));
       st_status := pending; st_createdAt := createdAt;
       st_spec := subtask; st_updatedAt := None; st_result := None |} in
  let* now := Date_now in
  modify (set_tasks (insert taskId (task_touch now (task_push r task)))).

(** [task.subtasks.find(st => st.id === subtaskId)] *)
Fixpoint find_subtask (subtaskId : string) (rs : list ref) : JS (option ref) :=
  match rs with
  | [] => ret None
  | r :: rs' =>
      let* st := deref r in
      if String.eqb (st_id st) subtaskId then ret (Some r)
      else find_subtask subtaskId rs'
  end.

Definition subtask_update (status : Status) (now : Z) (result : JSON)
    (st : Subtask) : Subtask :=
  {| st_id := st_id st; st_status := status;
     st_createdAt := st_createdAt st; st_spec := st_spec st;
     st_updatedAt := Some now;
     st_result := if truthy result then Some result else st_result st |}.

(** [result] defaults to [null] ([JNull]). *)
Definition updateSubtask (taskId subtaskId : string) (status : Status)
    (result : JSON) : JS unit :=
  let* task := task_or_throw taskId in
  let* found := find_subtask subtaskId (t_subtasks task) in
  match found with
  | None => throw (subtask_not_found subtaskId)
  | Some r =>
      let* now := Date_now in
      modify (set_heap (alter (subtask_update status now result) r)) ;;
      let* now' := Date_now in
      modify (set_tasks (insert taskId (task_touch now' task)))
  end.

Definition storeResult (taskId agentName : string) (result : JSON) : JS unit :=
  let* task := task_or_throw taskId in
  let* timestamp := Date_now in
  let* now := Date_now in
  modify (set_tasks (insert taskId
    (task_touch now
       (task_store agentName {| sr_data := result; sr_timestamp := timestamp |} task)))).

Definition is_settled (s : Status) : bool :=
  match s with
  | completed | failed => true
  | pending | in_progress => false
  end.

(** [task.subtasks.every(st => st.status === 'completed' ||
    st.status === 'failed')] *)
Fixpoint every_settled (rs : list ref) : JS bool :=
  match rs with
  | [] => ret true
  | r :: rs' =>
      let* st := deref r in
      if is_settled (st_status st) then every_settled rs' else ret false
  end.

Definition areSubtasksComplete (taskId : string) : JS bool :=
  let* task := getTask taskId in
  match task with
  | None => ret false
  | Some task =>
      if (length (t_subtasks task) =? 0)%nat then ret false
      else every_settled (t_subtasks task)
  end.

(** [StateManager.registerAgent]: [{ name, status: 'online', lastSeen,
    ...status }], where the coordinator passes the registration body. *)
Definition sm_registerAgent (agentName : string) (info : AgentInfo) : JS unit :=
  let* lastSeen := Date_now in
  modify (set_agentStatus (insert agentName
    {| as_name := ai_name info; as_status := online;
       as_lastSeen := lastSeen; as_info := info |})).

Definition mark_offline (agent : AgentStatus) : AgentStatus :=
  {| as_name := as_name agent; as_status := offline;
     as_lastSeen := as_lastSeen agent; as_info := as_info agent |}.

Definition task_expired (now maxAge : Z) (task : Task) : bool :=
  (now - t_updatedAt task >? maxAge) && is_settled (t_status task).

Definition session_expired (now maxAge : Z) (session : Session) : bool :=
  now - s_updatedAt session >? maxAge.

Definition agent_stale (now : Z) (agent : AgentStatus) : bool :=
  now - as_lastSeen agent >? 60000.

(** The three loops of [cleanup] walk the entries of a [Map]; the first two
    delete from the map they walk, the third mutates the entry objects. *)
Definition sweep_tasks (now maxAge : Z) (tasks : gmap string Task) : gmap string Task :=
  map_fold (λ taskId task acc,
              if task_expired now maxAge task then delete taskId acc else acc)
           tasks tasks.

Definition sweep_sessions (now maxAge : Z) (sessions : gmap string Session)
    : gmap string Session :=
  map_fold (λ sessionId session acc,
              if session_expired now maxAge session then delete sessionId acc else acc)
           sessions sessions.

Definition sweep_agents (now : Z) (agents : gmap string AgentStatus)
    : gmap string AgentStatus :=
  (λ agent, if agent_stale now agent then mark_offline agent else agent) <$> agents.

(** [maxAge = None] is a call without argument: the default is one hour. *)
Definition cleanup (maxAge : option Z) : JS unit :=
  let maxAge := default 3600000 maxAge in
  let* now := Date_now in
  modify (set_tasks (sweep_tasks now maxAge)) ;;
  modify (set_sessions (sweep_sessions now maxAge)) ;;
  modify (set_agentStatus (sweep_agents now)).

(** ** The coordinator *)

(** [Map.prototype.set] on an insertion-ordered map: an existing key keeps
    its place. *)
Fixpoint map_set {V} (k : string) (v : V) (m : list (string * V)) : list (string * V) :=
  match m with
  | [] => [(k, v)]
  | (k', v') :: m' =>
      if String.eqb k' k then (k, v) :: m' else (k', v') :: map_set k v m'
  end.

Definition registerAgent (agentInfo : AgentInfo) : JS unit :=
  let* lastSeen := Date_now in
  modify (set_agents (map_set (ai_name agentInfo)
    {| ag_info := agentInfo; ag_lastSeen := lastSeen |})) ;;
  sm_registerAgent (ai_name agentInfo) agentInfo ;;
  console_log ("[Coordinator] Registered agent: " +:+ ai_name agentInfo).

(** [capabilities.includes(capability)] *)
Definition includes (capability : string) (capabilities : list string) : bool :=
  existsb (String.eqb capability) capabilities.

Definition findAgentsByCapability (capability : string) : JS (list Agent) :=
  gets (λ w, List.filter
               (λ agent, includes capability (ai_capabilities (ag_info agent)))
               (map snd (w_agents w))).

(** [depth === s] for a string literal [s]. *)
Definition is_string (s : string) (v : JSON) : bool :=
  match v with
  | JStr s' => String.eqb s' s
  | _ => false
  end.

Definition research_spec (query : string) : SubtaskSpec :=
  {| sp_type := research;
     sp_description := "Gather information about: " +:+ query;
     sp_capability := "search";
     sp_priority := 1;
     sp_dependsOn := None |}.

Definition summarize_spec : SubtaskSpec :=
  {| sp_type := summarize;
     sp_description := "Summarize research findings";
     sp_capability := "summarize";
     sp_priority := 2;
     sp_dependsOn := Some [research] |}.

Definition decomposeQuery (query : string) (depth : JSON) : list SubtaskSpec :=
  let subtasks := [] in
  let subtasks := subtasks ++ [research_spec query] in
  if is_string "comprehensive" depth || is_string "detailed" depth
  then subtasks ++ [summarize_spec]
  else subtasks.

(** [await fetch(url, { method: 'POST', ..., signal })] followed, for a
    2xx answer, by [await response.json()]. *)
Definition send (rq : HttpRequest) : JS FetchResult :=
  λ w, (Normal (fetch env (length (w_requests w)) rq),
        set_requests (λ rs, rs ++ [rq]) w).

Definition response_ok (status : Z) : bool :=
  (200 <=? status) && (status <=? 299).

Definition delegateTask (taskId : string) (subtask : TaskPayload)
    (agentUrl : string) : JS JSON :=
  try_catch
    (let* response := send {| rq_url := agentUrl +:+ "/task";
                              rq_taskId := taskId;
                              rq_payload := subtask;
                              rq_timeout := taskTimeout config |} in
     match response with
     | FetchRejected message => throw message
     | Responded status body =>
         if negb (response_ok status)
         then throw ("Agent returned " +:+ pretty status)
         else match body with
              | inl message => throw message
              | inr value => ret value
              end
     end)
    (λ message,
       console_error ("[Coordinator] Failed to delegate task to " +:+ agentUrl
                      +:+ ": " +:+ message) ;;
       throw message).

(** The [results] object: [results[dep]] and [results[type] = result]. *)
Fixpoint results_get (k : SubtaskType) (results : list (SubtaskType * JSON))
    : option JSON :=
  match results with
  | [] => None
  | (k', v) :: results' =>
      if decide (k' = k) then Some v else results_get k results'
  end.

Fixpoint results_set (k : SubtaskType) (v : JSON)
    (results : list (SubtaskType * JSON)) : list (SubtaskType * JSON) :=
  match results with
  | [] => [(k, v)]
  | (k', v') :: results' =>
      if decide (k' = k) then (k, v) :: results'
      else (k', v') :: results_set k v results'
  end.

(** [subtask.dependsOn.every(dep => results[dep])] *)
Definition dependenciesMet (dependsOn : list SubtaskType)
    (results : list (SubtaskType * JSON)) : bool :=
  forallb (λ dep, match results_get dep results with
                  | Some v => truthy v
                  | None => false
                  end) dependsOn.

(** [subtask.dependsOn.reduce((acc, dep) => { acc[dep] = results[dep]; ... },
    {})], or [{}] without [dependsOn]. *)
Definition previousResults (dependsOn : option (list SubtaskType))
    (results : list (SubtaskType * JSON)) : list (SubtaskType * option JSON) :=
  match dependsOn with
  | Some deps => map (λ dep, (dep, results_get dep results)) deps
  | None => []
  end.

(** [[...subtasks].sort((a, b) => a.priority - b.priority)].  The
    specification of [Array.prototype.sort] makes it stable, so every
    conforming engine returns the array that this insertion sort returns
    ([sort_by_priority_stable] below).  Priorities are integers; the default
    of [priority_of] stands for a reference outside the heap, which no
    JavaScript array holds. *)
Definition priority_of (heap : list Subtask) (r : ref) : Z :=
  match heap !! r with
  | Some st => sp_priority (st_spec st)
  | None => 0
  end.

Fixpoint insert_by_priority (heap : list Subtask) (r : ref) (sorted : list ref)
    : list ref :=
  match sorted with
  | [] => [r]
  | r' :: sorted' =>
      if priority_of heap r <=? priority_of heap r'
      then r :: r' :: sorted'
      else r' :: insert_by_priority heap r sorted'
  end.

Definition sort_by_priority (heap : list Subtask) (subtasks : list ref) : list ref :=
  foldr (insert_by_priority heap) [] subtasks.

Definition no_capable_agent : JSON :=
  JObj [("error", JStr "No capable agent available")].

Definition error_result (message : string) : JSON :=
  JObj [("error", JStr message)].

(** The body of the [for (const subtask of sortedSubtasks)] loop. *)
Definition execute_subtask (taskId : string) (r : ref) : JS unit :=
  let* subtask := deref r in
  let* results := gets w_results in
  let spec := st_spec subtask in
  if match sp_dependsOn spec with
     | Some deps => negb (dependenciesMet deps results)
     | None => false
     end
  then
    console_log ("[Coordinator] Skipping " +:+ type_name (sp_type spec)
                 +:+ " - dependencies not met")
  else
    let* capableAgents := findAgentsByCapability (sp_capability spec) in
    match capableAgents with
    | [] =>
        console_error ("[Coordinator] No agent found for capability: "
                       +:+ sp_capability spec) ;;
        updateSubtask taskId (st_id subtask) failed no_capable_agent
    | agent :: _ =>
        console_log ("[Coordinator] Delegating " +:+ type_name (sp_type spec)
                     +:+ " to " +:+ ai_name (ag_info agent)) ;;
        updateSubtask taskId (st_id subtask) in_progress JNull ;;
        try_catch
          (let* subtask' := deref r in
           let* results := gets w_results in
           let taskData :=
             {| tp_subtask := subtask';
                tp_previousResults := previousResults (sp_dependsOn spec) results |} in
           let* result := delegateTask taskId taskData (ai_url (ag_info agent)) in
           modify (set_results (results_set (sp_type spec) result)) ;;
           updateSubtask taskId (st_id subtask) completed result ;;
           storeResult taskId (ai_name (ag_info agent)) result)
          (λ message,
             console_error ("[Coordinator] Task " +:+ type_name (sp_type spec)
                            +:+ " failed: " +:+ message) ;;
             updateSubtask taskId (st_id subtask) failed (error_result message))
    end.

Fixpoint for_each {A} (f : A → JS unit) (l : list A) : JS unit :=
  match l with
  | [] => ret tt
  | x :: l' => f x ;; for_each f l'
  end.

Definition executeSubtasks (taskId : string) (subtasks : list ref)
    : JS (list (SubtaskType * JSON)) :=
  modify (set_results (λ _, [])) ;;
  let* sortedSubtasks := gets (λ w, sort_by_priority (w_heap w) subtasks) in
  for_each (execute_subtask taskId) sortedSubtasks ;;
  gets w_results.

(** ** POST /research *)

(** The parsed request body; [None] is an absent property. *)
Record ResearchBody : Type := {
  rb_query : option string;
  rb_depth : option JSON
}.

Inductive ReplyBody : Type :=
| ErrorBody (error : string) (message : option string)
| ResearchDone (taskId : string) (report : Report).

Record Reply : Type := {
  rp_status : Z;
  rp_body : ReplyBody
}.

(** [!query] for a string or an absent property. *)
Definition query_missing (query : option string) : bool :=
  match query with
  | Some q => String.eqb q ""
  | None => true
  end.

(** The part of the handler between the validation of the body and the
    call of [executeSubtasks]: create the task, decompose, add the subtasks,
    mark the task in progress and read [getTask(taskId).subtasks]. *)
Definition open_research (taskId query : string) (depth : JSON) : JS (list ref) :=
  createTask taskId {| td_query := query; td_depth := depth;
                       td_type := "research" |} ;;
  console_log ("[Coordinator] New research task: " +:+ taskId) ;;
  console_log ("[Coordinator] Query: " +:+ query) ;;
  for_each (addSubtask taskId) (decomposeQuery query depth) ;;
  updateTask taskId in_progress None ;;
  let* task := getTask taskId in
  match task with
  | Some task => ret (t_subtasks task)
  | None => throw "TypeError: Cannot read properties of null (reading 'subtasks')"
  end.

(** [taskId] is what [uuidv4()] returns for this request; [completedAt]
    keeps the clock reading instead of its ISO rendering. *)
Definition post_research (taskId : string) (body : ResearchBody) : JS Reply :=
  try_catch
    (let query := default "" (rb_query body) in
     let depth := default (JStr "basic") (rb_depth body) in
     if query_missing (rb_query body)
     then ret {| rp_status := 400; rp_body := ErrorBody "Query is required" None |}
     else
       let* subtasks := open_research taskId query depth in
       let* results := executeSubtasks taskId subtasks in
       let* completedAt := Date_now in
       let report :=
         {| r_taskId := taskId; r_query := query; r_depth := depth;
            r_completedAt := completedAt;
            r_findings := js_or (results_get research results) (JObj []);
            r_summary := js_or (results_get summarize results) JNull |} in
       updateTask taskId completed (Some report) ;;
       ret {| rp_status := 200; rp_body := ResearchDone taskId report |})
    (λ message,
       console_error ("[Coordinator] Error processing research: " +:+ message) ;;
       ret {| rp_status := 500;
              rp_body := ErrorBody "Failed to process research query"
                                   (Some message) |}).

End Program.

(** ** src/lib/storage.ts and POST /api/auth/register *)

Module Registration.

Record Agent : Type := {
  id : string;
  name : string;
  apiKey : string;
  createdAt : string
}.

(** [Storage.agents], a [Map] from agent id to agent, in insertion order.
    (The session map of [Storage] is not touched by registration.) *)
Record Storage : Type := {
  agents : list (string * Agent)
}.

Definition empty_storage : Storage := {| agents := [] |}.

Definition addAgent (agent : Agent) (storage : Storage) : Storage :=
  {| agents := map_set (id agent) agent (agents storage) |}.

(** [Array.from(this.agents.values()).find(a => a.name === name)] *)
Definition findAgentByName (n : string) (storage : Storage) : option Agent :=
  List.find (λ a, String.eqb (name a) n) (map snd (agents storage)).

Definition findAgentByApiKey (key : string) (storage : Storage) : option Agent :=
  List.find (λ a, String.eqb (apiKey a) key) (map snd (agents storage)).

(** White space removed by [String.prototype.trim], as far as it lies in
    ASCII: tab, line feed, vertical tab, form feed, carriage return, space. *)
Definition is_space (c : Ascii.ascii) : bool :=
  let n := Ascii.nat_of_ascii c in
  ((9 <=? n) && (n <=? 13) || (n =? 32))%nat.

Fixpoint drop_spaces (cs : list Ascii.ascii) : list Ascii.ascii :=
  match cs with
  | [] => []
  | c :: cs' => if is_space c then drop_spaces cs' else cs
  end.

Definition trim (s : string) : string :=
  String.string_of_list_ascii
    (rev (drop_spaces (rev (drop_spaces (String.list_ascii_of_string s))))).

(** [uuid.replace(/-/g, '')] *)
Fixpoint remove_dashes (s : string) : string :=
  match s with
  | EmptyString => EmptyString
  | String c s' =>
      if Ascii.eqb c (Ascii.ascii_of_nat 45) then remove_dashes s' else String c (remove_dashes s')
  end.

(** Property lookup on a parsed JSON object. *)
Fixpoint get_field (k : string) (fields : list (string * JSON)) : option JSON :=
  match fields with
  | [] => None
  | (k', v) :: fields' => if String.eqb k' k then Some v else get_field k fields'
  end.

Inductive Reply : Type :=
| ErrorReply (status : Z) (error : string)
| Registered (status : Z) (agentId apiKey message : string).

(** What the route does once [request.json()] has returned [body] and
    [const { name } = body] has been evaluated to [n] ([None] is
    [undefined]).  [uuid1], [uuid2] are the two [uuidv4()] results and
    [now] is [new Date().toISOString()]. *)
Definition register_name (uuid1 uuid2 now : string) (n : option JSON)
    (storage : Storage) : Reply * Storage :=
  match n with
  | Some (JStr n) =>
      if String.eqb n "" || (String.length (trim n) =? 0)%nat
      then (ErrorReply 400 "Name is required and must be a non-empty string", storage)
      else if (50 <? String.length n)%nat
      then (ErrorReply 400 "Name must be 50 characters or less", storage)
      else
        match findAgentByName n storage with
        | Some existingAgent => (ErrorReply 409 "Name already taken", storage)
        | None =>
            let agentId := "agent_" +:+ uuid1 in
            let apiKey := "sk_test_" +:+ remove_dashes uuid2 in
            let agent := {| id := agentId; name := n; apiKey := apiKey;
                            createdAt := now |} in
            (Registered 201 agentId apiKey
               ("Welcome " +:+ n +:+ "! Use this API key for all requests."),
             addAgent agent storage)
        end
  | _ => (ErrorReply 400 "Name is required and must be a non-empty string", storage)
  end.

(** [request = None] is a body that [request.json()] rejects.  Destructuring
    [null] throws as well; both land in the [catch] of the route. *)
Definition POST (uuid1 uuid2 now : string) (request : option JSON)
    (storage : Storage) : Reply * Storage :=
  match request with
  | None => (ErrorReply 400 "Invalid JSON", storage)
  | Some JNull => (ErrorReply 400 "Invalid JSON", storage)
  | Some (JObj fields) =>
      register_name uuid1 uuid2 now (get_field "name" fields) storage
  | Some _ => register_name uuid1 uuid2 now None storage
  end.

(** The two checks a name passes before the route looks it up. *)
Definition name_accepted (n : string) : bool :=
  negb (String.eqb n "" || (String.length (trim n) =? 0)%nat) &&
  negb (50 <? String.length n)%nat.

(** The storages that a server started empty can hold. *)
Inductive reachable : Storage → Prop :=
| reachable_start : reachable empty_storage
| reachable_POST storage uuid1 uuid2 now request :
    reachable storage →
    reachable (snd (POST uuid1 uuid2 now request storage)).

(** The error statuses listed by the specification. *)
Definition listed_error_statuses : list Z := [400; 401; 403; 404; 500].

End Registration.

(** ** Notions used to state the properties of a run *)

(** The part of a subtask object that no method ever assigns. *)
Definition shape (st : Subtask) : string * SubtaskSpec := (st_id st, st_spec st).

Definition shapes (heap : list Subtask) : list (string * SubtaskSpec) :=
  shape <$> heap.

(** The reference that [task.subtasks.find(st => st.id === subtaskId)]
    returns on a list of live references. *)
Definition owner_of (heap : list Subtask) (subtaskId : string) (rs : list ref)
    : option ref :=
  List.find (λ r, match heap !! r with
                  | Some st => String.eqb (st_id st) subtaskId
                  | None => false
                  end) rs.

(** The world after a successful [updateSubtask] that found [task] and the
    subtask object [r]. *)
Definition updated (env : Env) (taskId : string) (task : Task) (r : ref)
    (status : Status) (result : JSON) (w : World) : World :=
  set_tasks (insert taskId (task_touch (date_now env (S (w_ticks w))) task))
    (set_ticks S
       (set_heap (alter (subtask_update status (date_now env (w_ticks w)) result) r)
          (set_ticks S w))).

(** The world after a successful [storeResult] that found [task]. *)
Definition stored (env : Env) (taskId : string) (task : Task)
    (agentName : string) (result : JSON) (w : World) : World :=
  set_tasks (insert taskId
    (task_touch (date_now env (S (w_ticks w)))
       (task_store agentName
          {| sr_data := result; sr_timestamp := date_now env (w_ticks w) |} task)))
    (set_ticks S (set_ticks S w)).

(** How [delegateTask] ends for a given outcome of [fetch]: it throws the
    message on the left or returns the value on the right. *)
Definition delegation_outcome (answer : FetchResult) : string + JSON :=
  match answer with
  | FetchRejected message => inl message
  | Responded status body =>
      if negb (response_ok status)
      then inl ("Agent returned " +:+ pretty status)
      else body
  end.

(** [results[dep]] is missing or falsy for no dependency of the subtask. *)
Definition dependencies_ok (st : Subtask) (w : World) : bool :=
  match sp_dependsOn (st_spec st) with
  | Some deps => dependenciesMet deps (w_results w)
  | None => true
  end.

(** The requests of [requests] that carry the subtask with id [subtaskId]. *)
Definition posts_for (subtaskId : string) (requests : list HttpRequest)
    : list HttpRequest :=
  List.filter (λ rq, String.eqb (st_id (tp_subtask (rq_payload rq))) subtaskId)
              requests.

(** [executeSubtasks taskId subtasks] is called the way the handler calls
    it: [subtasks] is the subtask array of task [taskId], every element is a
    live object, and the ids are pairwise distinct. *)
Definition well_formed_call (w : World) (taskId : string) (subtasks : list ref)
    : Prop :=
  (∃ task, w_tasks w !! taskId = Some task ∧ t_subtasks task = subtasks) ∧
  Forall (λ r, is_Some (w_heap w !! r)) subtasks ∧
  NoDup ((λ r, st_id <$> w_heap w !! r) <$> subtasks).

(** What a state-manager method leaves alone, however it ends. *)
Definition sm_frame (w w' : World) : Prop :=
  w_requests w' = w_requests w ∧
  w_results w' = w_results w ∧
  w_agents w' = w_agents w ∧
  w_console w' = w_console w ∧
  shapes (w_heap w') = shapes (w_heap w).

(** The request that [delegateTask] sends. *)
Definition delegation_request (config : Config) (taskId : string)
    (payload : TaskPayload) (agentUrl : string) : HttpRequest :=
  {| rq_url := agentUrl +:+ "/task"; rq_taskId := taskId;
     rq_payload := payload; rq_timeout := taskTimeout config |}.

(** What one iteration of the loop does to a well-formed call, by cases:
    skipped for an unmet dependency; failed for want of a capable agent;
    otherwise delegated with one request to the first capable agent, and
    completed or failed according to the outcome of that request. *)
Definition iteration_outcome (env : Env) (config : Config) (taskId : string)
    (r : ref) (st : Subtask) (w w' : World) : Prop :=
  if negb (dependencies_ok st w) then
    w' = set_console
           (λ c, c ++ [Log ("[Coordinator] Skipping "
                            +:+ type_name (sp_type (st_spec st))
                            +:+ " - dependencies not met")]) w
  else
    match fst (findAgentsByCapability (sp_capability (st_spec st)) w) with
    | Normal [] =>
        w_requests w' = w_requests w ∧
        w_results w' = w_results w ∧
        ∃ st', w_heap w' !! r = Some st' ∧
               st_status st' = failed ∧
               st_result st' = Some no_capable_agent
    | Normal (agent :: _) =>
        ∃ rq,
          w_requests w' = w_requests w ++ [rq] ∧
          rq_url rq = ai_url (ag_info agent) +:+ "/task" ∧
          rq_taskId rq = taskId ∧
          rq_timeout rq = taskTimeout config ∧
          shape (tp_subtask (rq_payload rq)) = shape st ∧
          st_status (tp_subtask (rq_payload rq)) = in_progress ∧
          tp_previousResults (rq_payload rq)
            = previousResults (sp_dependsOn (st_spec st)) (w_results w) ∧
          match delegation_outcome (fetch env (length (w_requests w)) rq) with
          | inl message =>
              w_results w' = w_results w ∧
              ∃ st', w_heap w' !! r = Some st' ∧
                     st_status st' = failed ∧
                     st_result st' = Some (error_result message)
          | inr value =>
              w_results w'
                = results_set (sp_type (st_spec st)) value (w_results w) ∧
              (∃ st', w_heap w' !! r = Some st' ∧
                      st_status st' = completed ∧
                      st_result st'
                        = if truthy value then Some value else st_result st) ∧
              (∃ task' sr, w_tasks w' !! taskId = Some task' ∧
                           t_results task' !! ai_name (ag_info agent) = Some sr ∧
                           sr_data sr = value)
          end
    | Throw _ => False
    end.

(** Request [rq] carries the subtask object [r] of [heap], for task
    [taskId], with the configured timeout. *)
Definition carries (config : Config) (taskId : string) (heap : list Subtask)
    (r : ref) (rq : HttpRequest) : Prop :=
  ∃ st, heap !! r = Some st ∧
        shape (tp_subtask (rq_payload rq)) = shape st ∧
        rq_taskId rq = taskId ∧
        rq_timeout rq = taskTimeout config.

(** The priority written in a request. *)
Definition request_priority (rq : HttpRequest) : Z :=
  sp_priority (st_spec (tp_subtask (rq_payload rq))).

(** ** Concrete scenarios *)

Definition demo_config : Config :=
  {| port := 4000; serverUrl := "http://localhost:3000";
     maxConcurrentTasks := 5; taskTimeout := 30000;
     retryAttempts := 3; retryDelay := 1000 |}.

(** Every agent answers 500. *)
Definition env_failing : Env :=
  {| date_now := λ n, 1700000000000 + Z.of_nat n;
     fetch := λ _ _, Responded 500 (inl "") |}.

(** Every agent answers 200 with a JSON object. *)
Definition env_answering : Env :=
  {| date_now := λ n, 1700000000000 + Z.of_nat n;
     fetch := λ _ _, Responded 200 (inr (JObj [("findings", JStr "...")])) |}.

Definition researcher : AgentInfo :=
  {| ai_name := "ResearcherAgent"; ai_url := "http://localhost:4001";
     ai_capabilities := ["search"; "validate"; "extract"] |}.

Definition summarizer : AgentInfo :=
  {| ai_name := "SummarizerAgent"; ai_url := "http://localhost:4002";
     ai_capabilities := ["summarize"] |}.

(** A coordinator that knows the researcher only, at the moment the handler
    of a detailed request calls [executeSubtasks]. *)
Definition world_researcher_only (env : Env) : World :=
  snd (open_research env "task-1" "rust async" (JStr "detailed")
         (snd (registerAgent env researcher empty_world))).

(** A coordinator without any registered agent, same moment. *)
Definition world_no_agents (env : Env) : World :=
  snd (open_research env "task-1" "rust async" (JStr "detailed") empty_world).

(** The two subtask objects of a detailed request for task ["task-1"], as
    [addSubtask] creates them at times [t0] and [t1]. *)
Definition research_object (t0 : Z) : Subtask :=
  {| st_id := "task-1-0"; st_status := pending; st_createdAt := t0;
     st_spec := research_spec "rust async";
     st_updatedAt := None; st_result := None |}.

Definition summarize_object (t1 : Z) : Subtask :=
  {| st_id := "task-1-1"; st_status := pending; st_createdAt := t1;
     st_spec := summarize_spec;
     st_updatedAt := None; st_result := None |}.


(** A coordinator that knows both workers, at the moment the handler of a
    detailed request calls [executeSubtasks]. *)
Definition world_both_agents (env : Env) : World :=
  snd (open_research env "task-1" "rust async" (JStr "detailed")
         (snd (registerAgent env summarizer
                 (snd (registerAgent env researcher empty_world))))).

(** ** Further methods of the state manager and routes of the coordinator *)

Section MoreProgram.

Context (env : Env).

(** [getResults]: [task ? task.results : {}]. *)
Definition getResults (taskId : string) : JS (gmap string StoredResult) :=
  gets (λ w, match w_tasks w !! taskId with
             | Some task => t_results task
             | None => ∅
             end).

Definition getAgentStatus (agentName : string) : JS (option AgentStatus) :=
  gets (λ w, w_agentStatus w !! agentName).

(** The test of the filter in [getOnlineAgents]. *)
Definition listed_online (now : Z) (agent : AgentStatus) : bool :=
  match as_status agent with
  | online => now - as_lastSeen agent <? 60000
  | offline => false
  end.

(** [getOnlineAgents].  The list comes in the order of the map
    representation, not in insertion order; it is only used for
    membership. *)
Definition getOnlineAgents : JS (list AgentStatus) :=
  let* now := Date_now env in
  gets (λ w, List.filter (listed_online now)
               (snd <$> map_to_list (w_agentStatus w))).






End MoreProgram.

(** The object that [addSubtask] creates for the [i]-th subtask of a task,
    at time [t]. *)
Definition new_subtask (taskId : string) (i : nat) (t : Z) (spec : SubtaskSpec)
    : Subtask :=
  {| st_id := taskId +:+ "-" +:+ pretty i; st_status := pending;
     st_createdAt := t; st_spec := spec;
     st_updatedAt := None; st_result := None |}.


(** [agents.get(name)] on an insertion-ordered map. *)
Definition map_get {V} (k : string) (m : list (string * V)) : option V :=
  snd <$> List.find (λ entry, String.eqb (fst entry) k) m.

(** The coordinator's [agents] map as [registerAgent] builds it: a [Map]
    holds a key once, and every agent is filed under its own name. *)
Definition registry_ok (w : World) : Prop :=
  NoDup (map fst (w_agents w)) ∧
  Forall (λ entry, ai_name (ag_info (snd entry)) = fst entry) (w_agents w).







(** ** src/lib/auth.ts and the routes behind the API key *)

Module Sessions.

Inductive SessionStatus : Type := waiting | active | complete.

Record Session : Type := {
  id : string;
  agentId : string;
  agentName : string;
  status : SessionStatus;
  createdAt : string;
  lastActivity : string
}.

(** The state of the server process: the two maps of the [storage]
    singleton, and the [sessions] map that the module of the state route
    creates for itself. *)
Record App : Type := {
  storage : Registration.Storage;
  sessions : list (string * Session);
  route_sessions : list (string * Session)
}.

Definition start : App :=
  {| storage := Registration.empty_storage; sessions := []; route_sessions := [] |}.

Definition addSession (session : Session) (app : App) : App :=
  {| storage := storage app;
     sessions := map_set (id session) session (sessions app);
     route_sessions := route_sessions app |}.

Definition getSession (sessionId : string) (app : App) : option Session :=
  map_get sessionId (sessions app).

Inductive Auth : Type :=
| Invalid (error : string)
| Valid (agent : Registration.Agent).

(** [authorization] is what [request.headers.get("authorization")] returns,
    [None] for [null]. *)
Definition validateApiKey (authorization : option string)
    (agents : Registration.Storage) : Auth :=
  match authorization with
  | None => Invalid "Missing or invalid Authorization header"
  | Some authHeader =>
      if String.eqb authHeader "" || negb (String.prefix "Bearer " authHeader)
      then Invalid "Missing or invalid Authorization header"
      else
        let apiKey :=
          String.substring 7 (String.length authHeader - 7) authHeader in
        match Registration.findAgentByApiKey apiKey agents with
        | None => Invalid "Invalid API key"
        | Some agent => Valid agent
        end
  end.

(** [requireAuth]: the agent, or the message of the error thrown. *)
Definition requireAuth (authorization : option string)
    (agents : Registration.Storage) : string + Registration.Agent :=
  match validateApiKey authorization agents with
  | Invalid error =>
      inl (if String.eqb error "" then "Authentication failed" else error)
  | Valid agent => inr agent
  end.

(** [POST /api/test]; [body = None] is a body that [request.json()]
    rejects. *)
Inductive TestReply : Type :=
| TestError (status : Z) (error : string)
| TestOk (message agentId agentName : string) (echo : JSON) (timestamp : string).

Definition test_POST (authorization : option string) (body : option JSON)
    (now : string) (agents : Registration.Storage) : TestReply :=
  match validateApiKey authorization agents with
  | Invalid error => TestError 401 error
  | Valid agent =>
      match body with
      | None => TestError 400 "Invalid JSON"
      | Some body =>
          TestOk "Test successful" (Registration.id agent)
                 (Registration.name agent) body now
      end
  end.

(** [process.env.NEXT_PUBLIC_BASE_URL || "http://localhost:3000"] *)
Definition base_url (NEXT_PUBLIC_BASE_URL : option string) : string :=
  match NEXT_PUBLIC_BASE_URL with
  | Some url => if String.eqb url "" then "http://localhost:3000" else url
  | None => "http://localhost:3000"
  end.

Record StateView : Type := {
  v_sessionId : string;
  v_status : SessionStatus;
  v_phase : string;
  v_playerCount : Z;
  v_maxPlayers : Z;
  v_turn : option string;
  v_availableActions : list string;
  v_spectatorUrl : string;
  v_result : option (string * string)
}.

Inductive Reply : Type :=
| ErrorReply (status : Z) (error : string)
| StateReply (status : Z) (view : StateView).

(** [POST /api/sessions/join].  [uuid] is the result of [uuidv4()],
    [now1] and [now2] are the two [new Date().toISOString()]. *)
Definition join_POST (authorization : option string) (uuid now1 now2 : string)
    (NEXT_PUBLIC_BASE_URL : option string) (app : App) : Reply * App :=
  match validateApiKey authorization (storage app) with
  | Invalid error => (ErrorReply 401 error, app)
  | Valid agent =>
      let sessionId := "session_" +:+ uuid in
      let session :=
        {| id := sessionId; agentId := Registration.id agent;
           agentName := Registration.name agent; status := waiting;
           createdAt := now1; lastActivity := now2 |} in
      (StateReply 201
         {| v_sessionId := sessionId; v_status := waiting;
            v_phase := "lobby"; v_playerCount := 1; v_maxPlayers := 2;
            v_turn := None; v_availableActions := ["wait"; "leave"];
            v_spectatorUrl := base_url NEXT_PUBLIC_BASE_URL +:+ "/watch/"
                              +:+ sessionId;
            v_result := None |},
       addSession session app)
  end.

Definition touch (now : string) (session : Session) : Session :=
  {| id := id session; agentId := agentId session;
     agentName := agentName session; status := status session;
     createdAt := createdAt session; lastActivity := now |}.

(** [GET /api/sessions/[sessionId]/state].  The handler reads the
    [sessions] map of its own module, here [route_sessions]; assigning
    [session.lastActivity] changes the entry in that map. *)
Definition state_GET (authorization : option string) (sessionId now : string)
    (NEXT_PUBLIC_BASE_URL : option string) (app : App) : Reply * App :=
  match validateApiKey authorization (storage app) with
  | Invalid error => (ErrorReply 401 error, app)
  | Valid agent =>
      match map_get sessionId (route_sessions app) with
      | None => (ErrorReply 404 "Session not found", app)
      | Some session =>
          if negb (String.eqb (agentId session) (Registration.id agent))
          then (ErrorReply 403 "Not your session", app)
          else
            (StateReply 200
               {| v_sessionId := id session;
                  v_status := status session;
                  v_phase := match status session with
                             | waiting => "lobby"
                             | _ => "game"
                             end;
                  v_playerCount := match status session with
                                   | waiting => 1
                                   | _ => 2
                                   end;
                  v_maxPlayers := 2;
                  v_turn := match status session with
                            | active => Some (Registration.name agent)
                            | _ => None
                            end;
                  v_availableActions :=
                    match status session with
                    | waiting => ["wait"; "leave"]
                    | active => ["make_move"; "forfeit"]
                    | complete => ["view_result"]
                    end;
                  v_spectatorUrl := base_url NEXT_PUBLIC_BASE_URL +:+ "/watch/"
                                    +:+ sessionId;
                  v_result := match status session with
                              | complete => Some ("demo", "test_complete")
                              | _ => None
                              end |},
             {| storage := storage app; sessions := sessions app;
                route_sessions := map_set sessionId (touch now session)
                                          (route_sessions app) |})
      end
  end.

(** [POST /api/auth/register] on the state of the process. *)
Definition register_POST (uuid1 uuid2 now : string) (request : option JSON)
    (app : App) : Registration.Reply * App :=
  let (reply, agents) := Registration.POST uuid1 uuid2 now request (storage app) in
  (reply, {| storage := agents; sessions := sessions app;
             route_sessions := route_sessions app |}).

(** The states that a server started empty can get into through its
    routes. *)
Inductive reachable : App → Prop :=
| reachable_start : reachable start
| reachable_register app uuid1 uuid2 now request :
    reachable app →
    reachable (snd (register_POST uuid1 uuid2 now request app))
| reachable_join app authorization uuid now1 now2 url :
    reachable app →
    reachable (snd (join_POST authorization uuid now1 now2 url app))
| reachable_state app authorization sessionId now url :
    reachable app →
    reachable (snd (state_GET authorization sessionId now url app)).

End Sessions.

(** A server on which one agent has registered. *)
Definition app_one_agent : Sessions.App :=
  snd (Sessions.register_POST "1b9d6bcd-bbfd" "4b2d-9b5d"
         "2024-01-01T00:00:00.000Z"
         (Some (JObj [("name", JStr "TestAgent123")])) Sessions.start).

(** A state in which the map of the state route holds a waiting session of
    that agent. *)
Definition app_route_session : Sessions.App :=
  {| Sessions.storage := Sessions.storage app_one_agent;
     Sessions.sessions := [];
     Sessions.route_sessions :=
       [("session_7", {| Sessions.id := "session_7";
                         Sessions.agentId := "agent_1b9d6bcd-bbfd";
                         Sessions.agentName := "TestAgent123";
                         Sessions.status := Sessions.waiting;
                         Sessions.createdAt := "2024-01-01T00:00:01.000Z";
                         Sessions.lastActivity := "2024-01-01T00:00:01.000Z" |})] |}.

(** ** Sessions of the state manager *)

(** What [createSession] and [updateSession] take from their object
    argument: the properties that share a name with those the state manager
    sets itself.  [None] is an absent property; whatever else the object
    holds is copied into the session and read by no method. *)
Record SessionData : Type := {
  sd_id : option string;
  sd_createdAt : option Z;
  sd_updatedAt : option Z
}.

Section SessionMethods.

Context (env : Env).

Definition session_not_found (sessionId : string) : string :=
  "Session " +:+ sessionId +:+ " not found".

(** [{ id, createdAt: Date.now(), updatedAt: Date.now(), ...sessionData }] *)
Definition createSession (sessionId : string) (sessionData : SessionData)
    : JS unit :=
  let* createdAt := Date_now env in
  let* updatedAt := Date_now env in
  modify (set_sessions (insert sessionId
    {| s_id := default sessionId (sd_id sessionData);
       s_createdAt := default createdAt (sd_createdAt sessionData);
       s_updatedAt := default updatedAt (sd_updatedAt sessionData) |})).

Definition getSession (sessionId : string) : JS (option Session) :=
  gets (λ w, w_sessions w !! sessionId).

(** [{ ...session, ...updates, updatedAt: Date.now() }] *)
Definition updateSession (sessionId : string) (updates : SessionData) : JS unit :=
  λ w, match w_sessions w !! sessionId with
       | None => (Throw (session_not_found sessionId), w)
       | Some session =>
           (let* now := Date_now env in
            modify (set_sessions (insert sessionId
              {| s_id := default (s_id session) (sd_id updates);
                 s_createdAt := default (s_createdAt session)
                                        (sd_createdAt updates);
                 s_updatedAt := now |}))) w
       end.

End SessionMethods.

(** ** The researcher: the query of a task *)

Module Researcher.

(** [s.replace(pattern, '')] for a string [pattern]: the first occurrence
    of [pattern] in [s] is removed. *)
Fixpoint replace_first (pattern s : string) : string :=
  if String.prefix pattern s
  then String.substring (String.length pattern)
                        (String.length s - String.length pattern) s
  else match s with
       | EmptyString => EmptyString
       | String c s' => String c (replace_first pattern s')
       end.

(** [subtask.query || subtask.description.replace('Gather information
    about: ', '')], where [query = None] is a subtask without that
    property. *)
Definition task_query (query : option string) (description : string) : string :=
  match query with
  | Some q =>
      if String.eqb q ""
      then replace_first "Gather information about: " description
      else q
  | None => replace_first "Gather information about: " description
  end.

End Researcher.

(** * Verification *)

(** ** Decomposition *)

(** C6.  For a depth that is neither ['detailed'] nor ['comprehensive']
    (['basic'] in particular), [decomposeQuery] returns exactly one subtask;
    its type is ['research'], its capability ['search'], its priority 1. *)
Theorem decomposeQuery_basic (query : string) (depth : JSON) :
  depth ≠ JStr "detailed" →
  depth ≠ JStr "comprehensive" →
  ∃ subtask,
    decomposeQuery query depth = [subtask] ∧
    sp_type subtask = research ∧
    sp_capability subtask = "search" ∧
    sp_priority subtask = 1.
Proof.
  intros Hd Hc. exists (research_spec query).
  unfold decomposeQuery.
  assert (is_string "comprehensive" depth = false) as ->.
  { destruct depth; simpl; try reflexivity.
    destruct (String.eqb_spec s "comprehensive"); congruence. }
  assert (is_string "detailed" depth = false) as ->.
  { destruct depth; simpl; try reflexivity.
    destruct (String.eqb_spec s "detailed"); congruence. }
  repeat split.
Qed.

Lemma decomposeQuery_basic_witness :
  ∃ subtask,
    decomposeQuery "rust async" (JStr "basic") = [subtask] ∧
    sp_type subtask = research ∧
    sp_capability subtask = "search" ∧
    sp_priority subtask = 1.
Proof.
  apply (decomposeQuery_basic "rust async" (JStr "basic")); discriminate.
Defined.

Lemma is_string_true (s : string) (v : JSON) :
  is_string s v = true ↔ v = JStr s.
Proof.
  destruct v; simpl; try (split; [discriminate | congruence]).
  destruct (String.eqb_spec s0 s); split; congruence.
Qed.

(** C7.  For depth ['detailed'] or ['comprehensive'], [decomposeQuery]
    returns exactly two subtasks: the research subtask with priority 1, then
    a summarize subtask with priority 2 whose dependency list is
    [['research']]; for every other depth no summarize subtask is returned. *)
Theorem decomposeQuery_detailed (query : string) (depth : JSON) :
  (depth = JStr "detailed" ∨ depth = JStr "comprehensive" →
   ∃ first second,
     decomposeQuery query depth = [first; second] ∧
     sp_type first = research ∧ sp_priority first = 1 ∧
     sp_type second = summarize ∧ sp_priority second = 2 ∧
     sp_dependsOn second = Some [research]) ∧
  (¬ (depth = JStr "detailed" ∨ depth = JStr "comprehensive") →
   ∀ subtask, In subtask (decomposeQuery query depth) →
     sp_type subtask ≠ summarize).
Proof.
  split.
  - intros Hdepth. exists (research_spec query), summarize_spec.
    unfold decomposeQuery.
    assert (is_string "comprehensive" depth || is_string "detailed" depth = true) as ->.
    { apply orb_true_iff. rewrite !is_string_true. tauto. }
    repeat split.
  - intros Hdepth subtask. unfold decomposeQuery.
    destruct (is_string "comprehensive" depth || is_string "detailed" depth) eqn:E.
    + apply orb_true_iff in E. rewrite !is_string_true in E. tauto.
    + simpl. intros [<- | []]. discriminate.
Qed.

Lemma decomposeQuery_detailed_witness :
  (∃ first second,
     decomposeQuery "rust async" (JStr "comprehensive") = [first; second] ∧
     sp_type first = research ∧ sp_priority first = 1 ∧
     sp_type second = summarize ∧ sp_priority second = 2 ∧
     sp_dependsOn second = Some [research]) ∧
  (∀ subtask, In subtask (decomposeQuery "rust async" (JNum 3)) →
     sp_type subtask ≠ summarize).
Proof.
  split.
  - apply (proj1 (decomposeQuery_detailed "rust async" (JStr "comprehensive"))).
    right; reflexivity.
  - apply (proj2 (decomposeQuery_detailed "rust async" (JNum 3))).
    intros [H | H]; discriminate H.
Defined.

(** ** State manager: completion test and cleanup *)

Lemma every_settled_spec (w : World) (rs : list ref) (sts : list Subtask) :
  Forall2 (λ r st, w_heap w !! r = Some st) rs sts →
  every_settled rs w = (Normal (forallb (λ st, is_settled (st_status st)) sts), w).
Proof.
  induction 1 as [| r st rs sts Hr _ IH]; [reflexivity |].
  simpl. unfold bind, deref. rewrite Hr.
  destruct (is_settled (st_status st)); [exact IH | reflexivity].
Qed.

Lemma is_settled_true (s : Status) :
  is_settled s = true ↔ s = completed ∨ s = failed.
Proof. destruct s; simpl; intuition congruence. Qed.

(** C10.  [areSubtasksComplete] returns [false] for a task id that is not in
    the task map and for a task without subtasks; for a task with at least
    one subtask it returns [true] exactly when the status of every subtask is
    ['completed'] or ['failed'].  It changes nothing. *)
Theorem areSubtasksComplete_spec (w : World) (taskId : string) :
  (w_tasks w !! taskId = None →
   areSubtasksComplete taskId w = (Normal false, w)) ∧
  (∀ task, w_tasks w !! taskId = Some task → t_subtasks task = [] →
   areSubtasksComplete taskId w = (Normal false, w)) ∧
  (∀ task sts, w_tasks w !! taskId = Some task → t_subtasks task ≠ [] →
   Forall2 (λ r st, w_heap w !! r = Some st) (t_subtasks task) sts →
   ∃ b, areSubtasksComplete taskId w = (Normal b, w) ∧
        (b = true ↔
         Forall (λ st, st_status st = completed ∨ st_status st = failed) sts)).
Proof.
  unfold areSubtasksComplete, getTask, bind, gets, ret.
  split; [| split].
  - intros ->. reflexivity.
  - intros task -> ->. reflexivity.
  - intros task sts -> Hne Hsts.
    destruct (t_subtasks task) as [| r rs] eqn:E; [congruence |].
    change ((length (r :: rs) =? 0)%nat) with false. cbv iota.
    rewrite (every_settled_spec w _ _ Hsts).
    eexists; split; [reflexivity |].
    rewrite forallb_forall, Forall_forall.
    split; intros H st Hst.
    + apply is_settled_true, H, list_elem_of_In, Hst.
    + apply is_settled_true, H, list_elem_of_In, Hst.
Qed.

Lemma sweep_fold_lookup {A} (expired : A → bool) (m0 m : gmap string A) (k : string) :
  map_fold (λ i x acc, if expired x then delete i acc else acc) m0 m !! k =
  match m !! k with
  | Some x => if expired x then None else m0 !! k
  | None => m0 !! k
  end.
Proof.
  revert k.
  apply (map_fold_weak_ind (λ r m, ∀ k, r !! k =
    match m !! k with
    | Some x => if expired x then None else m0 !! k
    | None => m0 !! k
    end)).
  - intros k. rewrite lookup_empty. reflexivity.
  - intros i x m' r Hi IH k. destruct (decide (i = k)) as [-> | Hne].
    + rewrite lookup_insert_eq. destruct (expired x).
      * apply lookup_delete_eq.
      * rewrite IH, Hi. reflexivity.
    + rewrite lookup_insert_ne by done. destruct (expired x).
      * rewrite lookup_delete_ne by done. apply IH.
      * apply IH.
Qed.

Lemma sweep_tasks_lookup (now maxAge : Z) (tasks : gmap string Task) (k : string) :
  sweep_tasks now maxAge tasks !! k =
  match tasks !! k with
  | Some task => if task_expired now maxAge task then None else Some task
  | None => None
  end.
Proof.
  unfold sweep_tasks.
  rewrite (sweep_fold_lookup (task_expired now maxAge)).
  destruct (tasks !! k); reflexivity.
Qed.

Lemma task_expired_true (now maxAge : Z) (task : Task) :
  task_expired now maxAge task = true ↔
  (t_status task = completed ∨ t_status task = failed) ∧
  now - t_updatedAt task > maxAge.
Proof.
  unfold task_expired. rewrite andb_true_iff, is_settled_true, Z.gtb_gt. tauto.
Qed.

(** C8.  [cleanup] deletes a task exactly when its status is ['completed']
    or ['failed'] and [now - updatedAt] exceeds [maxAge] (one hour when no
    argument is given); a task that is pending or in progress always
    survives, and a surviving task is unchanged.  The agent-status map keeps
    exactly its keys; an entry older than 60 seconds gets status
    ['offline'] and nothing else of it changes; a fresher entry is unchanged. *)
Theorem cleanup_spec (env : Env) (maxAge : option Z) (w : World) :
  let now := date_now env (w_ticks w) in
  let age := default 3600000 maxAge in
  let w' := snd (cleanup env maxAge w) in
  fst (cleanup env maxAge w) = Normal tt ∧
  (∀ taskId task, w_tasks w !! taskId = Some task →
     (w_tasks w' !! taskId = None ↔
        (t_status task = completed ∨ t_status task = failed) ∧
        now - t_updatedAt task > age) ∧
     (w_tasks w' !! taskId = None ∨ w_tasks w' !! taskId = Some task) ∧
     (t_status task = pending ∨ t_status task = in_progress →
        w_tasks w' !! taskId = Some task)) ∧
  (∀ taskId, w_tasks w !! taskId = None → w_tasks w' !! taskId = None) ∧
  dom (w_agentStatus w') = dom (w_agentStatus w) ∧
  (∀ agentName agent, w_agentStatus w !! agentName = Some agent →
     ∃ agent', w_agentStatus w' !! agentName = Some agent' ∧
       as_name agent' = as_name agent ∧
       as_lastSeen agent' = as_lastSeen agent ∧
       as_info agent' = as_info agent ∧
       (now - as_lastSeen agent > 60000 → as_status agent' = offline) ∧
       (now - as_lastSeen agent ≤ 60000 → agent' = agent)).
Proof.
  intros now age w'.
  assert (Htasks : w_tasks w' = sweep_tasks now age (w_tasks w)) by reflexivity.
  assert (Hagents : w_agentStatus w' = sweep_agents now (w_agentStatus w)) by reflexivity.
  split; [reflexivity |]. split; [| split; [| split]].
  - intros taskId task Htask.
    rewrite Htasks, sweep_tasks_lookup, Htask.
    pose proof (task_expired_true now age task) as Hexp.
    destruct (task_expired now age task).
    + split; [| split].
      * split; [intros _; apply Hexp; reflexivity | reflexivity].
      * left; reflexivity.
      * intros Hlive. destruct Hexp as [Hexp _].
        destruct (Hexp eq_refl) as [[Hs | Hs] _], Hlive as [Hl | Hl]; congruence.
    + split; [| split].
      * split; [discriminate |]. intros H. apply Hexp in H. discriminate.
      * right; reflexivity.
      * reflexivity.
  - intros taskId Hnone. rewrite Htasks, sweep_tasks_lookup, Hnone. reflexivity.
  - rewrite Hagents. unfold sweep_agents. apply dom_fmap_L.
  - intros agentName agent Hagent.
    rewrite Hagents. unfold sweep_agents. rewrite lookup_fmap, Hagent. simpl.
    eexists; split; [reflexivity |].
    unfold agent_stale. destruct (Z.gtb_spec (now - as_lastSeen agent) 60000).
    + repeat split; simpl; intros; lia || reflexivity.
    + repeat split; simpl; intros; lia || reflexivity.
Qed.

(** [cleanup] at work: of two tasks last updated two hours before the
    sweep, the completed one goes and the one in progress stays; the agent
    that has been silent for two hours stays in the map, offline. *)
Example cleanup_sweeps_settled_tasks_only :
  let old := 1700000000000 in
  let task status :=
    {| t_id := "t"; t_status := status; t_createdAt := old; t_updatedAt := old;
       t_data := {| td_query := "q"; td_depth := JStr "basic";
                    td_type := "research" |};
       t_subtasks := []; t_results := ∅; t_report := None |} in
  let w :=
    set_agentStatus (insert "ResearcherAgent"
                       {| as_name := "ResearcherAgent"; as_status := online;
                          as_lastSeen := old; as_info := researcher |})
      (set_tasks (λ _, <["done" := task completed]>
                         (<["running" := task in_progress]> ∅))
         empty_world) in
  let env := {| date_now := λ _, old + 7200000;
                fetch := λ _ _, FetchRejected "" |} in
  let w' := snd (cleanup env None w) in
  w_tasks w' !! "done" = None ∧
  w_tasks w' !! "running" = Some (task in_progress) ∧
  (as_status <$> w_agentStatus w' !! "ResearcherAgent") = Some offline.
Proof.
  split; [vm_compute; reflexivity |].
  split; vm_compute; reflexivity.
Qed.

(** ** Registration route *)

Module RegistrationFacts.
Import Registration.

Lemma values_map_set {V} (k : string) (v x : V) (m : list (string * V)) :
  In x (map snd (map_set k v m)) → x = v ∨ In x (map snd m).
Proof.
  induction m as [| [k' v'] m IH]; simpl.
  - intros [<- | []]. left; reflexivity.
  - destruct (String.eqb k' k); simpl.
    + intros [<- | H]; [left; reflexivity | right; right; exact H].
    + intros [<- | H]; [right; left; reflexivity |].
      destruct (IH H) as [-> | H']; [left; reflexivity | right; right; exact H'].
Qed.

Lemma register_name_keeps_names_accepted uuid1 uuid2 now n storage :
  (∀ a, In a (map snd (agents storage)) → name_accepted (name a) = true) →
  ∀ a, In a (map snd (agents (snd (register_name uuid1 uuid2 now n storage)))) →
       name_accepted (name a) = true.
Proof.
  intros Hall a. unfold register_name.
  destruct n as [[| | | n | |] |]; try (apply Hall).
  destruct (String.eqb n "" || (String.length (trim n) =? 0)%nat) eqn:E1;
    [apply Hall |].
  destruct (50 <? String.length n)%nat eqn:E2; [apply Hall |].
  destruct (findAgentByName n storage); [apply Hall |].
  simpl. intros H. apply values_map_set in H as [-> | H]; [| apply Hall, H].
  unfold name_accepted. simpl. rewrite E1, E2. reflexivity.
Qed.

Lemma reachable_names_accepted storage :
  reachable storage →
  ∀ a, In a (map snd (agents storage)) → name_accepted (name a) = true.
Proof.
  induction 1 as [| storage uuid1 uuid2 now request _ IH].
  - intros a [].
  - unfold POST. destruct request as [[| | | | |] |];
      try (apply register_name_keeps_names_accepted, IH); apply IH.
Qed.

Lemma findAgentByName_finds storage a :
  In a (map snd (agents storage)) →
  ∃ existing, findAgentByName (name a) storage = Some existing.
Proof.
  intros Hin. unfold findAgentByName.
  destruct (find _ _) as [existing |] eqn:E; [eauto |].
  pose proof (find_none _ _ E a Hin) as Hne. simpl in Hne.
  rewrite String.eqb_refl in Hne. discriminate.
Qed.

(** C9.  A registration request whose [name] is the name of an agent that
    is already registered is answered with status 409 and error
    ["Name already taken"]; the storage is left as it was, so no agent and no
    API key is created.  409 is none of the statuses 400, 401, 403, 404, 500
    that the specification lists. *)
Theorem register_name_taken (storage : Storage) (uuid1 uuid2 now : string)
    (fields : list (string * JSON)) (existing : Agent) :
  reachable storage →
  In existing (map snd (agents storage)) →
  get_field "name" fields = Some (JStr (name existing)) →
  POST uuid1 uuid2 now (Some (JObj fields)) storage
    = (ErrorReply 409 "Name already taken", storage) ∧
  ¬ In 409 listed_error_statuses.
Proof.
  intros Hreach Hin Hname. split.
  - pose proof (reachable_names_accepted storage Hreach existing Hin) as Hok.
    unfold name_accepted in Hok.
    apply andb_true_iff in Hok as [H1 H2].
    apply negb_true_iff in H1. apply negb_true_iff in H2.
    unfold POST, register_name. rewrite Hname, H1, H2.
    destruct (findAgentByName_finds storage existing Hin) as [a ->].
    reflexivity.
  - unfold listed_error_statuses. simpl. intros H.
    repeat (destruct H as [H | H]; [discriminate H |]). exact H.
Qed.

Lemma register_name_taken_witness :
  let storage :=
    snd (POST "1b9d6bcd-bbfd" "4b2d-9b5d" "2024-01-01T00:00:00.000Z"
              (Some (JObj [("name", JStr "TestAgent123")])) empty_storage) in
  agents storage ≠ [] ∧
  POST "6ec0bd7f-11c0" "43da-975e" "2024-01-01T00:00:05.000Z"
       (Some (JObj [("name", JStr "TestAgent123")])) storage
    = (ErrorReply 409 "Name already taken", storage) ∧
  ¬ In 409 listed_error_statuses.
Proof.
  split; [discriminate |].
  apply (register_name_taken _ _ _ _ _
           {| id := "agent_1b9d6bcd-bbfd"; name := "TestAgent123";
              apiKey := "sk_test_4b2d9b5d";
              createdAt := "2024-01-01T00:00:00.000Z" |}).
  - apply reachable_POST, reachable_start.
  - left; reflexivity.
  - reflexivity.
Defined.

End RegistrationFacts.

(** ** The loop and the sort *)

Lemma for_each_app {A} (f : A → JS unit) (l1 l2 : list A) (w : World) :
  for_each f (l1 ++ l2) w =
  match for_each f l1 w with
  | (Normal _, w1) => for_each f l2 w1
  | (Throw m, w1) => (Throw m, w1)
  end.
Proof.
  revert w. induction l1 as [| x l1 IH]; intros w; simpl; [reflexivity |].
  unfold bind. destruct (f x w) as [[[] | m] w1]; [apply IH | reflexivity].
Qed.

Lemma insert_by_priority_perm heap r sorted :
  Permutation (insert_by_priority heap r sorted) (r :: sorted).
Proof.
  induction sorted as [| r' sorted IH]; simpl; [reflexivity |].
  destruct (priority_of heap r <=? priority_of heap r'); [reflexivity |].
  rewrite IH. apply perm_swap.
Qed.

Lemma sort_by_priority_perm heap subtasks :
  Permutation (sort_by_priority heap subtasks) subtasks.
Proof.
  induction subtasks as [| r subtasks IH]; simpl; [reflexivity |].
  rewrite insert_by_priority_perm. constructor. exact IH.
Qed.

Lemma insert_by_priority_sorted heap r sorted :
  StronglySorted (λ a b, priority_of heap a ≤ priority_of heap b) sorted →
  StronglySorted (λ a b, priority_of heap a ≤ priority_of heap b)
                 (insert_by_priority heap r sorted).
Proof.
  induction 1 as [| r' sorted Hsorted IH Hall]; simpl.
  - repeat constructor.
  - destruct (Z.leb_spec (priority_of heap r) (priority_of heap r')) as [Hle | Hgt].
    + constructor; [constructor; assumption |].
      constructor; [exact Hle |].
      eapply Forall_impl; [exact Hall |]. simpl. intros; lia.
    + constructor; [exact IH |].
      rewrite insert_by_priority_perm. constructor; [lia | exact Hall].
Qed.

Lemma sort_by_priority_sorted heap subtasks :
  StronglySorted (λ a b, priority_of heap a ≤ priority_of heap b)
                 (sort_by_priority heap subtasks).
Proof.
  induction subtasks as [| r subtasks IH]; simpl; [constructor |].
  apply insert_by_priority_sorted, IH.
Qed.

(** The sort is stable: subtasks of equal priority keep their order. *)
Lemma insert_by_priority_stable heap r sorted p :
  List.filter (λ x, priority_of heap x =? p) (insert_by_priority heap r sorted)
    = List.filter (λ x, priority_of heap x =? p) (r :: sorted).
Proof.
  induction sorted as [| r' sorted IH]; [reflexivity |].
  cbn [insert_by_priority].
  destruct (Z.leb_spec (priority_of heap r) (priority_of heap r')) as [_ | Hlt];
    [reflexivity |].
  cbn [List.filter] in *. rewrite IH.
  destruct (Z.eqb_spec (priority_of heap r) p) as [Hr | _]; [| reflexivity].
  destruct (Z.eqb_spec (priority_of heap r') p) as [Hr' | _]; [lia | reflexivity].
Qed.

Lemma sort_by_priority_stable heap subtasks p :
  List.filter (λ x, priority_of heap x =? p) (sort_by_priority heap subtasks)
    = List.filter (λ x, priority_of heap x =? p) subtasks.
Proof.
  induction subtasks as [| r subtasks IH]; [reflexivity |].
  cbn [sort_by_priority foldr]. rewrite insert_by_priority_stable.
  cbn [List.filter]. fold (sort_by_priority heap subtasks). rewrite IH.
  reflexivity.
Qed.

(** ** Frames: what the state-manager methods never touch *)

Lemma shapes_alter status now result r heap :
  shapes (alter (subtask_update status now result) r heap) = shapes heap.
Proof.
  unfold shapes. revert r. induction heap as [| st heap IH]; intros [| r];
    simpl; try reflexivity.
  f_equal. apply IH.
Qed.

Lemma shapes_lookup heap heap' r :
  shapes heap' = shapes heap → shape <$> heap' !! r = shape <$> heap !! r.
Proof.
  unfold shapes. intros H. rewrite <- !list_lookup_fmap, H. reflexivity.
Qed.

Lemma find_subtask_world subtaskId rs w :
  snd (find_subtask subtaskId rs w) = w.
Proof.
  induction rs as [| r rs IH]; simpl; [reflexivity |].
  unfold bind, deref. destruct (w_heap w !! r) as [st |]; [| reflexivity].
  destruct (String.eqb (st_id st) subtaskId); [reflexivity | exact IH].
Qed.

Lemma find_subtask_live subtaskId rs w :
  Forall (λ r, is_Some (w_heap w !! r)) rs →
  find_subtask subtaskId rs w = (Normal (owner_of (w_heap w) subtaskId rs), w).
Proof.
  induction 1 as [| r rs [st Hst] _ IH]; simpl; [reflexivity |].
  unfold bind, deref. rewrite Hst.
  destruct (String.eqb (st_id st) subtaskId); [reflexivity | exact IH].
Qed.

Lemma updateSubtask_frame env taskId subtaskId status result w :
  sm_frame w (snd (updateSubtask env taskId subtaskId status result w)).
Proof.
  unfold updateSubtask, bind, task_or_throw, sm_frame.
  destruct (w_tasks w !! taskId) as [task |]; [| simpl; tauto].
  pose proof (find_subtask_world subtaskId (t_subtasks task) w) as Hw.
  destruct (find_subtask subtaskId (t_subtasks task) w) as [[[r |] | m] w0];
    simpl in Hw; subst w0; simpl; try tauto.
  repeat split; try reflexivity. apply shapes_alter.
Qed.

Lemma updateSubtask_run env taskId subtaskId status result w task r :
  w_tasks w !! taskId = Some task →
  Forall (λ r, is_Some (w_heap w !! r)) (t_subtasks task) →
  owner_of (w_heap w) subtaskId (t_subtasks task) = Some r →
  updateSubtask env taskId subtaskId status result w
    = (Normal tt, updated env taskId task r status result w).
Proof.
  intros Htask Hlive Howner.
  unfold updateSubtask, bind, task_or_throw. rewrite Htask.
  rewrite (find_subtask_live _ _ _ Hlive), Howner. reflexivity.
Qed.

Lemma storeResult_run env taskId agentName result w task :
  w_tasks w !! taskId = Some task →
  storeResult env taskId agentName result w
    = (Normal tt, stored env taskId task agentName result w).
Proof.
  intros Htask. unfold storeResult, bind, task_or_throw. rewrite Htask.
  reflexivity.
Qed.

Lemma storeResult_frame env taskId agentName result w :
  sm_frame w (snd (storeResult env taskId agentName result w)) ∧
  w_heap (snd (storeResult env taskId agentName result w)) = w_heap w.
Proof.
  unfold storeResult, bind, task_or_throw, sm_frame.
  destruct (w_tasks w !! taskId) as [task |]; simpl; tauto.
Qed.

Lemma delegateTask_run env config taskId payload agentUrl w :
  delegateTask env config taskId payload agentUrl w =
  match delegation_outcome
          (fetch env (length (w_requests w))
                 (delegation_request config taskId payload agentUrl)) with
  | inl message =>
      (Throw message,
       set_console (λ c, c ++ [Error ("[Coordinator] Failed to delegate task to "
                                      +:+ agentUrl +:+ ": " +:+ message)])
         (set_requests
            (λ rs, rs ++ [delegation_request config taskId payload agentUrl]) w))
  | inr value =>
      (Normal value,
       set_requests
         (λ rs, rs ++ [delegation_request config taskId payload agentUrl]) w)
  end.
Proof.
  unfold delegateTask, try_catch, bind, send, delegation_outcome.
  fold (delegation_request config taskId payload agentUrl).
  destruct (fetch env _ _) as [message | status [message | value]];
    cbn -[String.append pretty]; try reflexivity;
    destruct (response_ok status); reflexivity.
Qed.

Lemma owner_of_shapes heap heap' subtaskId rs :
  shapes heap' = shapes heap →
  owner_of heap' subtaskId rs = owner_of heap subtaskId rs.
Proof.
  intros Hshapes. unfold owner_of.
  induction rs as [| r rs IH]; simpl; [reflexivity |].
  pose proof (shapes_lookup heap heap' r Hshapes) as Hr.
  destruct (heap' !! r) as [st' |], (heap !! r) as [st |];
    simplify_eq/=; [| exact IH].
  replace (st_id st') with (st_id st) by congruence.
  rewrite IH. reflexivity.
Qed.

Lemma owner_of_self heap rs r st :
  NoDup ((λ r, st_id <$> heap !! r) <$> rs) →
  r ∈ rs →
  heap !! r = Some st →
  owner_of heap (st_id st) rs = Some r.
Proof.
  intros Hnodup Hin Hr. unfold owner_of.
  induction rs as [| a rs IH]; [inversion Hin |].
  rewrite fmap_cons in Hnodup. apply NoDup_cons in Hnodup as [Hhead Hnodup].
  simpl. destruct (decide (a = r)) as [-> | Hne].
  - rewrite Hr, String.eqb_refl. reflexivity.
  - apply elem_of_cons in Hin as [-> | Hin]; [congruence |].
    destruct (heap !! a) as [sta |] eqn:Ha; [| apply IH; assumption].
    destruct (String.eqb_spec (st_id sta) (st_id st)) as [Heq | _];
      [| apply IH; assumption].
    exfalso. apply Hhead. simpl. rewrite Heq.
    apply list_elem_of_fmap. exists r. rewrite Hr. split; [reflexivity | exact Hin].
Qed.

(** ** One iteration of the loop, without any assumption *)

Ltac frame_of_update :=
  match goal with
  | |- context [updateSubtask ?e ?t ?i ?s ?res ?w] =>
      let F := fresh "F" in
      let E := fresh "E" in
      pose proof (updateSubtask_frame e t i s res w) as F;
      destruct (updateSubtask e t i s res w) as [[[] | ?] ?] eqn:E;
      unfold sm_frame in F; simpl in F;
      destruct F as (? & ? & ? & ? & ?)
  | |- context [storeResult ?e ?t ?a ?res ?w] =>
      let F := fresh "F" in
      let E := fresh "E" in
      pose proof (storeResult_frame e t a res w) as F;
      destruct (storeResult e t a res w) as [[[] | ?] ?] eqn:E;
      unfold sm_frame in F; simpl in F;
      destruct F as ((? & ? & ? & ? & ?) & ?)
  end.

Ltac one_request st agent rest :=
  simpl; (split; [congruence |]); (split; [congruence |]);
  right; exists st, agent, rest;
  match goal with
  | H : w_requests _ = _ ++ [?rq] |- _ => exists rq
  end;
  repeat split; simpl; unfold shape; congruence.

Lemma execute_subtask_sends env config taskId r w :
  let w' := snd (execute_subtask env config taskId r w) in
  shapes (w_heap w') = shapes (w_heap w) ∧
  w_agents w' = w_agents w ∧
  (w_requests w' = w_requests w ∨
   ∃ st agent rest rq,
     w_heap w !! r = Some st ∧
     dependencies_ok st w = true ∧
     fst (findAgentsByCapability (sp_capability (st_spec st)) w)
       = Normal (agent :: rest) ∧
     w_requests w' = w_requests w ++ [rq] ∧
     shape (tp_subtask (rq_payload rq)) = shape st ∧
     rq_url rq = ai_url (ag_info agent) +:+ "/task" ∧
     rq_taskId rq = taskId ∧
     rq_timeout rq = taskTimeout config).
Proof.
  unfold execute_subtask, bind, deref, gets.
  destruct (w_heap w !! r) as [st |] eqn:Hr; [| simpl; tauto].
  unfold dependencies_ok.
  destruct (match sp_dependsOn (st_spec st) with
            | Some deps => negb (dependenciesMet deps (w_results w))
            | None => false
            end) eqn:Hdeps; [simpl; tauto |].
  assert (Hok : match sp_dependsOn (st_spec st) with
                | Some deps => dependenciesMet deps (w_results w)
                | None => true
                end = true).
  { destruct (sp_dependsOn (st_spec st)); [| reflexivity].
    apply negb_false_iff, Hdeps. }
  unfold findAgentsByCapability, gets. simpl fst.
  destruct (List.filter _ (map snd (w_agents w))) as [| agent rest] eqn:Hagents.
  - unfold console_error, modify. frame_of_update; simpl; intuition congruence.
  - unfold console_log, console_error, modify. frame_of_update.
    2:{ simpl; intuition congruence. }
    unfold try_catch, bind, deref, gets.
    match goal with H : shapes (w_heap ?w1) = shapes (w_heap w) |- _ =>
      pose proof (shapes_lookup _ _ r H) as Hr1; rewrite Hr in Hr1;
      destruct (w_heap w1 !! r) as [st1 |] eqn:Hst1; simplify_eq/= end.
    rewrite delegateTask_run.
    destruct (delegation_outcome _) as [message | value].
    + frame_of_update; one_request st agent rest.
    + unfold modify. frame_of_update.
      * frame_of_update.
        -- one_request st agent rest.
        -- unfold console_error, modify. frame_of_update; one_request st agent rest.
      * unfold console_error, modify. frame_of_update; one_request st agent rest.
Qed.

(** ** One iteration of the loop in a well-formed call *)

Lemma updated_tasks env taskId task r status result w :
  w_tasks (updated env taskId task r status result w) !! taskId
    = Some (task_touch (date_now env (S (w_ticks w))) task).
Proof. unfold updated. simpl. apply lookup_insert_eq. Qed.

Lemma updated_heap env taskId task r status result w :
  w_heap (updated env taskId task r status result w)
    = alter (subtask_update status (date_now env (w_ticks w)) result) r (w_heap w).
Proof. reflexivity. Qed.

Lemma stored_tasks env taskId task agentName result w :
  w_tasks (stored env taskId task agentName result w) !! taskId
    = Some (task_touch (date_now env (S (w_ticks w)))
              (task_store agentName
                 {| sr_data := result; sr_timestamp := date_now env (w_ticks w) |}
                 task)).
Proof. unfold stored. simpl. apply lookup_insert_eq. Qed.

Lemma stored_heap env taskId task agentName result w :
  w_heap (stored env taskId task agentName result w) = w_heap w.
Proof. reflexivity. Qed.

Lemma well_formed_transfer w w' taskId owned :
  well_formed_call w taskId owned →
  shapes (w_heap w') = shapes (w_heap w) →
  (∃ task', w_tasks w' !! taskId = Some task' ∧ t_subtasks task' = owned) →
  well_formed_call w' taskId owned.
Proof.
  intros (_ & Hlive & Hnodup) Hshapes Htask. split; [exact Htask |]. split.
  - eapply Forall_impl; [exact Hlive |]. simpl. intros r [st Hst].
    pose proof (shapes_lookup _ _ r Hshapes) as Hr. rewrite Hst in Hr.
    destruct (w_heap w' !! r); [eauto | discriminate].
  - erewrite list_fmap_ext; [exact Hnodup |].
    intros _ r _. simpl.
    pose proof (shapes_lookup _ _ r Hshapes) as Hr.
    destruct (w_heap w' !! r), (w_heap w !! r); simplify_eq/=; congruence.
Qed.

Lemma updated_well_formed env taskId task r status result w owned :
  well_formed_call w taskId owned →
  w_tasks w !! taskId = Some task →
  well_formed_call (updated env taskId task r status result w) taskId owned.
Proof.
  intros Hwf Htask. eapply well_formed_transfer; [exact Hwf | |].
  - rewrite updated_heap. apply shapes_alter.
  - rewrite updated_tasks. eexists; split; [reflexivity |].
    destruct Hwf as ((task' & Htask' & Hsub) & _). simpl. congruence.
Qed.

Lemma stored_well_formed env taskId task agentName result w owned :
  well_formed_call w taskId owned →
  w_tasks w !! taskId = Some task →
  well_formed_call (stored env taskId task agentName result w) taskId owned.
Proof.
  intros Hwf Htask. eapply well_formed_transfer; [exact Hwf | reflexivity |].
  rewrite stored_tasks. eexists; split; [reflexivity |].
  destruct Hwf as ((task' & Htask' & Hsub) & _). simpl. congruence.
Qed.

Lemma updateSubtask_well_formed env taskId owned r st status result w :
  well_formed_call w taskId owned →
  r ∈ owned →
  w_heap w !! r = Some st →
  ∃ task,
    w_tasks w !! taskId = Some task ∧
    updateSubtask env taskId (st_id st) status result w
      = (Normal tt, updated env taskId task r status result w).
Proof.
  intros ((task & Htask & Hsub) & Hlive & Hnodup) Hin Hr.
  exists task. split; [exact Htask |].
  apply updateSubtask_run; rewrite ?Hsub; try assumption.
  apply owner_of_self; assumption.
Qed.

Arguments updated : simpl never.
Arguments stored : simpl never.

Lemma execute_subtask_cases env config taskId owned r st w :
  well_formed_call w taskId owned →
  r ∈ owned →
  w_heap w !! r = Some st →
  ∃ w',
    execute_subtask env config taskId r w = (Normal tt, w') ∧
    well_formed_call w' taskId owned ∧
    w_agents w' = w_agents w ∧
    (∀ r', r' ≠ r → w_heap w' !! r' = w_heap w !! r') ∧
    iteration_outcome env config taskId r st w w'.
Proof.
  intros Hwf Hin Hr.
  unfold execute_subtask, iteration_outcome, bind, deref, gets.
  rewrite Hr. unfold dependencies_ok.
  destruct (match sp_dependsOn (st_spec st) with
            | Some deps => negb (dependenciesMet deps (w_results w))
            | None => false
            end) eqn:Hdeps.
  { assert (negb match sp_dependsOn (st_spec st) with
                 | Some deps => dependenciesMet deps (w_results w)
                 | None => true
                 end = true) as ->.
    { destruct (sp_dependsOn (st_spec st)); [exact Hdeps | discriminate]. }
    eexists; split; [reflexivity |]. repeat split; try reflexivity.
    all: apply Hwf. }
  assert (negb match sp_dependsOn (st_spec st) with
               | Some deps => dependenciesMet deps (w_results w)
               | None => true
               end = false) as ->.
  { destruct (sp_dependsOn (st_spec st)); [exact Hdeps | reflexivity]. }
  unfold findAgentsByCapability, gets. simpl fst.
  destruct (List.filter _ (map snd (w_agents w))) as [| agent rest] eqn:Hagents.
  - unfold console_error, modify.
    match goal with |- context [updateSubtask _ _ _ _ _ ?w1] =>
      destruct (updateSubtask_well_formed env taskId owned r st failed
                  no_capable_agent w1 Hwf Hin Hr) as (task & Htask & ->)
    end.
    eexists; split; [reflexivity |].
    split; [apply updated_well_formed; assumption |].
    split; [reflexivity |].
    split; [intros r' Hne; rewrite updated_heap; simpl;
            apply list_lookup_alter_ne; congruence |].
    split; [reflexivity |]. split; [reflexivity |].
    rewrite updated_heap. simpl. rewrite list_lookup_alter_eq, Hr. simpl.
    eexists; split; [reflexivity |]. split; reflexivity.
  - unfold console_log, console_error, modify.
    match goal with |- context [updateSubtask _ _ _ _ _ ?w1] =>
      destruct (updateSubtask_well_formed env taskId owned r st in_progress
                  JNull w1 Hwf Hin Hr) as (task & Htask & ->);
      pose proof (updated_well_formed env taskId task r in_progress JNull w1
                    owned Hwf Htask) as Hwf2;
      set (w2 := updated env taskId task r in_progress JNull w1) in *;
      set (st2 := subtask_update in_progress (date_now env (w_ticks w1)) JNull st)
    end.
    assert (Hr2 : w_heap w2 !! r = Some st2).
    { unfold w2. rewrite updated_heap. simpl.
      rewrite list_lookup_alter_eq, Hr. reflexivity. }
    assert (Hother2 : ∀ r', r' ≠ r → w_heap w2 !! r' = w_heap w !! r').
    { intros r' Hne. unfold w2. rewrite updated_heap. simpl.
      apply list_lookup_alter_ne. congruence. }
    change (w_requests w) with (w_requests w2).
    change (w_results w) with (w_results w2).
    change (w_agents w) with (w_agents w2).
    clearbody w2.
    unfold try_catch, bind, deref, gets. rewrite Hr2, delegateTask_run.
    set (rq := delegation_request config taskId _ _).
    destruct (delegation_outcome (fetch env (length (w_requests w2)) rq))
      as [message | value] eqn:Hout.
    + match goal with |- context [updateSubtask _ _ _ ?s ?res ?w4] =>
        destruct (updateSubtask_well_formed env taskId owned r st2 s res w4
                    Hwf2 Hin Hr2) as (task4 & Htask4 & Hupd);
        change (st_id st2) with (st_id st) in Hupd; rewrite Hupd; clear Hupd;
        pose proof (updated_well_formed env taskId task4 r s res w4
                      owned Hwf2 Htask4) as Hwf5
      end.
      eexists; split; [reflexivity |].
      split; [exact Hwf5 |]. split; [reflexivity |].
      split.
      { intros r' Hne. rewrite updated_heap. simpl.
        rewrite list_lookup_alter_ne by congruence. apply Hother2, Hne. }
      exists rq. repeat (split; [reflexivity |]).
      rewrite Hout. split; [reflexivity |].
      rewrite updated_heap. simpl. rewrite list_lookup_alter_eq, Hr2. simpl.
      eexists; split; [reflexivity |]. split; reflexivity.
    + unfold modify.
      match goal with |- context [updateSubtask _ _ _ ?s ?res ?w4] =>
        destruct (updateSubtask_well_formed env taskId owned r st2 s res w4
                    Hwf2 Hin Hr2) as (task4 & Htask4 & Hupd);
        change (st_id st2) with (st_id st) in Hupd; rewrite Hupd; clear Hupd;
        pose proof (updated_well_formed env taskId task4 r s res w4
                      owned Hwf2 Htask4) as Hwf5;
        set (w5 := updated env taskId task4 r s res w4) in *
      end.
      destruct (proj1 Hwf5) as (task5 & Htask5 & _).
      rewrite (storeResult_run _ _ _ _ _ task5 Htask5).
      eexists; split; [reflexivity |].
      split; [apply stored_well_formed; assumption |].
      split; [reflexivity |].
      split.
      { intros r' Hne. rewrite stored_heap. unfold w5. rewrite updated_heap.
        simpl. rewrite list_lookup_alter_ne by congruence. apply Hother2, Hne. }
      exists rq. repeat (split; [reflexivity |]).
      rewrite Hout. split; [reflexivity |]. split.
      * rewrite stored_heap. unfold w5. rewrite updated_heap. simpl.
        rewrite list_lookup_alter_eq, Hr2. simpl.
        eexists; split; [reflexivity |]. split; reflexivity.
      * rewrite stored_tasks. do 2 eexists. split; [reflexivity |].
        simpl. rewrite lookup_insert_eq. split; reflexivity.
Qed.

(** ** The whole loop *)

Lemma executeSubtasks_unfold env config taskId subtasks w :
  executeSubtasks env config taskId subtasks w =
  match for_each (execute_subtask env config taskId)
                 (sort_by_priority (w_heap w) subtasks)
                 (set_results (λ _, []) w) with
  | (Normal _, w') => (Normal (w_results w'), w')
  | (Throw m, w') => (Throw m, w')
  end.
Proof.
  unfold executeSubtasks, bind, modify, gets. simpl.
  destruct (for_each _ _ _) as [[[] | m] w']; reflexivity.
Qed.

Lemma carries_shapes config taskId heap heap' r rq :
  shapes heap' = shapes heap →
  carries config taskId heap' r rq → carries config taskId heap r rq.
Proof.
  intros Hshapes (st' & Hst' & Hshape & Hid & Htimeout).
  pose proof (shapes_lookup _ _ r Hshapes) as Hr. rewrite Hst' in Hr.
  destruct (heap !! r) as [st |] eqn:Hst; [| discriminate Hr].
  injection Hr as Hid' Hspec'.
  exists st. split; [exact Hst |]. split; [| split; assumption].
  rewrite Hshape. unfold shape. congruence.
Qed.

Lemma for_each_sends env config taskId l w :
  let w' := snd (for_each (execute_subtask env config taskId) l w) in
  shapes (w_heap w') = shapes (w_heap w) ∧
  w_agents w' = w_agents w ∧
  ∃ sent extra,
    sent `sublist_of` l ∧
    w_requests w' = w_requests w ++ extra ∧
    Forall2 (carries config taskId (w_heap w)) sent extra.
Proof.
  revert w. induction l as [| r l IH]; intros w; simpl.
  { repeat split. exists [], []. rewrite app_nil_r. repeat constructor. }
  unfold bind.
  pose proof (execute_subtask_sends env config taskId r w) as Hstep.
  destruct (execute_subtask env config taskId r w) as [[[] | m] w1];
    simpl in Hstep; destruct Hstep as (Hs1 & Ha1 & Hrq1).
  - specialize (IH w1). simpl in IH.
    destruct IH as (Hs & Ha & sent & extra & Hsub & Hreq & Hcarry).
    split; [congruence |]. split; [congruence |].
    assert (Hcarry' : Forall2 (carries config taskId (w_heap w)) sent extra).
    { eapply Forall2_impl; [exact Hcarry |].
      intros r' rq'. apply carries_shapes, Hs1. }
    destruct Hrq1 as [Hsame | (st & agent & rest & rq & Hr & _ & _ & Hone & Hshape & _ & Hid & Htimeout)].
    + exists sent, extra. split; [apply sublist_cons, Hsub |].
      split; [congruence | exact Hcarry'].
    + exists (r :: sent), (rq :: extra). split; [apply sublist_skip, Hsub |].
      split; [rewrite Hreq, Hone, <- app_assoc; reflexivity |].
      constructor; [| exact Hcarry']. exists st. auto.
  - simpl. split; [exact Hs1 |]. split; [exact Ha1 |].
    destruct Hrq1 as [Hsame | (st & agent & rest & rq & Hr & _ & _ & Hone & Hshape & _ & Hid & Htimeout)].
    + exists [], []. split; [apply sublist_nil_l |].
      rewrite app_nil_r. split; [exact Hsame | constructor].
    + exists [r], [rq]. split; [apply sublist_skip, sublist_nil_l |].
      split; [exact Hone |]. repeat constructor. exists st. auto.
Qed.

Lemma ids_injective w taskId owned r r' st st' :
  well_formed_call w taskId owned →
  r ∈ owned → r' ∈ owned →
  w_heap w !! r = Some st → w_heap w !! r' = Some st' →
  st_id st = st_id st' → r = r'.
Proof.
  intros (_ & _ & Hnodup) Hin Hin' Hr Hr' Hid.
  pose proof (owner_of_self _ _ _ _ Hnodup Hin Hr) as H1.
  pose proof (owner_of_self _ _ _ _ Hnodup Hin' Hr') as H2.
  congruence.
Qed.

Lemma for_each_well_formed env config taskId owned l w :
  well_formed_call w taskId owned →
  (∀ r, r ∈ l → r ∈ owned) →
  ∃ w',
    for_each (execute_subtask env config taskId) l w = (Normal tt, w') ∧
    well_formed_call w' taskId owned ∧
    (∀ r, r ∉ l → w_heap w' !! r = w_heap w !! r).
Proof.
  revert w. induction l as [| r l IH]; intros w Hwf Hsub; simpl.
  { exists w. auto. }
  assert (Hin : r ∈ owned) by (apply Hsub; left).
  destruct Hwf as (Htask & Hlive & Hnodup).
  pose proof (proj1 (Forall_forall _ _) Hlive r Hin) as [st Hr].
  destruct (execute_subtask_cases env config taskId owned r st w
              (conj Htask (conj Hlive Hnodup)) Hin Hr)
    as (w1 & Hstep & Hwf1 & _ & Hother & _).
  destruct (IH w1 Hwf1) as (w' & Hrun & Hwf' & Hframe).
  { intros r' Hr'. apply Hsub. right. exact Hr'. }
  exists w'. unfold bind. rewrite Hstep. split; [exact Hrun |].
  split; [exact Hwf' |].
  intros r' Hnotin. rewrite Hframe.
  - apply Hother. intros ->. apply Hnotin. left.
  - intros Hr'. apply Hnotin. right. exact Hr'.
Qed.

Lemma well_formed_live w taskId owned r :
  well_formed_call w taskId owned → r ∈ owned → is_Some (w_heap w !! r).
Proof.
  intros (_ & Hlive & _) Hin. exact (proj1 (Forall_forall _ _) Hlive r Hin).
Qed.

Lemma well_formed_NoDup w taskId owned :
  well_formed_call w taskId owned → NoDup owned.
Proof. intros (_ & _ & Hnodup). exact (NoDup_fmap_1 _ _ Hnodup). Qed.

Lemma posts_for_app subtaskId l1 l2 :
  posts_for subtaskId (l1 ++ l2) = posts_for subtaskId l1 ++ posts_for subtaskId l2.
Proof. apply List.filter_app. Qed.

Lemma posts_for_others config taskId w owned sent extra r st :
  well_formed_call w taskId owned →
  Forall2 (carries config taskId (w_heap w)) sent extra →
  (∀ r', r' ∈ sent → r' ∈ owned) →
  r ∈ owned → r ∉ sent →
  w_heap w !! r = Some st →
  posts_for (st_id st) extra = [].
Proof.
  intros Hwf Hcarry Hsent Hin Hnotin Hr.
  induction Hcarry as [| r' rq sent extra (st' & Hr' & Hshape & _) _ IH];
    [reflexivity |].
  unfold posts_for in *. simpl.
  destruct (String.eqb_spec (st_id (tp_subtask (rq_payload rq))) (st_id st))
    as [Heq | _].
  - exfalso. assert (r' = r) as ->.
    { eapply (ids_injective w taskId owned r' r st' st); eauto.
      + apply Hsent. left.
      + injection Hshape as Hid _. congruence. }
    apply Hnotin. left.
  - apply IH.
    + intros r'' H. apply Hsent. right. exact H.
    + intros H. apply Hnotin. right. exact H.
Qed.

Lemma dependenciesMet_missing deps dep results :
  dep ∈ deps → results_get dep results = None →
  dependenciesMet deps results = false.
Proof.
  intros Hin Hnone. unfold dependenciesMet.
  destruct (forallb _ deps) eqn:E; [| reflexivity].
  rewrite forallb_forall in E.
  specialize (E dep (proj1 (list_elem_of_In _ _) Hin)).
  rewrite Hnone in E. discriminate.
Qed.

Lemma dependenciesMet_entries deps dep results :
  dependenciesMet deps results = true → dep ∈ deps →
  ∃ v, results_get dep results = Some v ∧ truthy v = true.
Proof.
  unfold dependenciesMet. rewrite forallb_forall. intros Hall Hin.
  specialize (Hall dep (proj1 (list_elem_of_In _ _) Hin)).
  destruct (results_get dep results) as [v |]; [eauto | discriminate].
Qed.



Lemma sorted_elem_of heap subtasks r :
  r ∈ sort_by_priority heap subtasks ↔ r ∈ subtasks.
Proof. rewrite (sort_by_priority_perm heap subtasks). reflexivity. Qed.

(** A well-formed run, cut at the iteration of [r]. *)
Lemma run_split env config taskId subtasks w pre r post w_r :
  well_formed_call w taskId subtasks →
  sort_by_priority (w_heap w) subtasks = pre ++ r :: post →
  for_each (execute_subtask env config taskId) pre (set_results (λ _, []) w)
    = (Normal tt, w_r) →
  ∃ st,
    w_heap w !! r = Some st ∧
    w_heap w_r !! r = Some st ∧
    r ∈ subtasks ∧
    well_formed_call w_r taskId subtasks ∧
    (∃ before, w_requests w_r = w_requests w ++ before ∧
               posts_for (st_id st) before = []) ∧
    ∀ w_r',
      execute_subtask env config taskId r w_r = (Normal tt, w_r') →
      well_formed_call w_r' taskId subtasks →
      ∃ w_end,
        for_each (execute_subtask env config taskId) post w_r' = (Normal tt, w_end) ∧
        executeSubtasks env config taskId subtasks w
          = (Normal (w_results w_end), w_end) ∧
        w_heap w_end !! r = w_heap w_r' !! r ∧
        (∃ after, w_requests w_end = w_requests w_r' ++ after ∧
                  posts_for (st_id st) after = []).
Proof.
  intros Hwf Hsorted Hpre.
  set (start := set_results (λ _, []) w) in *.
  assert (Hwf0 : well_formed_call start taskId subtasks) by exact Hwf.
  assert (Hnodup : NoDup (pre ++ r :: post)).
  { rewrite <- Hsorted, sort_by_priority_perm.
    eapply well_formed_NoDup, Hwf. }
  assert (Hall : ∀ r', r' ∈ pre ++ r :: post → r' ∈ subtasks).
  { intros r'. rewrite <- Hsorted. apply sorted_elem_of. }
  apply NoDup_app in Hnodup as (_ & Hdisj & Hnodup).
  apply NoDup_cons in Hnodup as (Hpost & _).
  assert (Hnotpre : r ∉ pre).
  { intros H. apply (Hdisj r H). left. }
  assert (Hin : r ∈ subtasks).
  { apply Hall, elem_of_app. right. left. }
  destruct (for_each_well_formed env config taskId subtasks pre start Hwf0)
    as (w_r0 & Hrun & Hwf_r & Hframe).
  { intros r' Hr'. apply Hall, elem_of_app. left. exact Hr'. }
  rewrite Hpre in Hrun. injection Hrun as <-.
  destruct (well_formed_live _ _ _ _ Hwf Hin) as [st Hst].
  exists st. split; [exact Hst |].
  split; [rewrite (Hframe r Hnotpre); exact Hst |].
  split; [exact Hin |]. split; [exact Hwf_r |]. split.
  { pose proof (for_each_sends env config taskId pre start) as Hs.
    rewrite Hpre in Hs. simpl in Hs.
    destruct Hs as (_ & _ & sent & before & Hsub & Hreq & Hcarry).
    exists before. split; [exact Hreq |].
    eapply (posts_for_others config taskId w subtasks sent before r st);
      eauto.
    - intros r' Hr'. apply Hall, elem_of_app. left.
      eapply elem_of_sublist; eauto.
    - intros H. apply Hnotpre. eapply elem_of_sublist; eauto. }
  intros w_r' Hstep Hwf_r'.
  destruct (for_each_well_formed env config taskId subtasks post w_r' Hwf_r')
    as (w_end & Hrun & Hwf_end & Hframe').
  { intros r' Hr'. apply Hall, elem_of_app. right. right. exact Hr'. }
  exists w_end. split; [exact Hrun |]. split.
  { rewrite executeSubtasks_unfold, Hsorted, for_each_app.
    fold start. rewrite Hpre. simpl. unfold bind. rewrite Hstep, Hrun.
    reflexivity. }
  split; [apply Hframe', Hpost |].
  pose proof (for_each_sends env config taskId post w_r') as Hs.
  rewrite Hrun in Hs. simpl in Hs.
  destruct Hs as (_ & _ & sent & after & Hsub & Hreq & Hcarry).
  exists after. split; [exact Hreq |].
  assert (Hst' : ∃ st', w_heap w_r' !! r = Some st' ∧ st_id st' = st_id st).
  { pose proof (execute_subtask_sends env config taskId r w_r) as Hshape.
    rewrite Hstep in Hshape. simpl in Hshape. destruct Hshape as (Hshape & _).
    pose proof (shapes_lookup _ _ r Hshape) as Hl.
    rewrite (Hframe r Hnotpre) in Hl. change (w_heap start) with (w_heap w) in Hl.
    rewrite Hst in Hl.
    destruct (w_heap w_r' !! r) as [st' |]; [| discriminate].
    exists st'. split; [reflexivity |]. injection Hl as Hid _. exact Hid. }
  destruct Hst' as (st' & Hst' & <-).
  eapply (posts_for_others config taskId w_r' subtasks sent after r st');
    eauto.
  - intros r' Hr'. apply Hall, elem_of_app. right. right.
    eapply elem_of_sublist; eauto.
  - intros H. apply Hpost. eapply elem_of_sublist; eauto.
Qed.

(** ** Skipped subtasks *)

(** C2.  In a well-formed call of [executeSubtasks], let a subtask that
    declares dependencies be reached while one of the named dependencies has
    no entry in [results].  Then its iteration only writes the "Skipping"
    line; the run ends normally; at the end of the run the subtask object is
    what it was at the start (so a pending subtask is still pending, not
    failed), and no request of the run carries it. *)
Theorem unmet_dependency_skipped env config taskId subtasks w pre r post w_r
    st deps dep :
  well_formed_call w taskId subtasks →
  sort_by_priority (w_heap w) subtasks = pre ++ r :: post →
  for_each (execute_subtask env config taskId) pre (set_results (λ _, []) w)
    = (Normal tt, w_r) →
  w_heap w_r !! r = Some st →
  sp_dependsOn (st_spec st) = Some deps →
  dep ∈ deps →
  results_get dep (w_results w_r) = None →
  execute_subtask env config taskId r w_r
    = (Normal tt,
       set_console
         (λ c, c ++ [Log ("[Coordinator] Skipping "
                          +:+ type_name (sp_type (st_spec st))
                          +:+ " - dependencies not met")]) w_r) ∧
  ∃ results w_end sent,
    executeSubtasks env config taskId subtasks w = (Normal results, w_end) ∧
    w_heap w !! r = Some st ∧
    w_heap w_end !! r = Some st ∧
    (st_status st = pending →
     ∃ st', w_heap w_end !! r = Some st' ∧ st_status st' = pending ∧
            st_status st' ≠ failed) ∧
    w_requests w_end = w_requests w ++ sent ∧
    posts_for (st_id st) sent = [].
Proof.
  intros Hwf Hsorted Hpre Hst Hdeps Hdep Hmissing.
  destruct (run_split env config taskId subtasks w pre r post w_r
              Hwf Hsorted Hpre)
    as (st0 & Hst0 & Hst_r & Hin & Hwf_r & (before & Hbefore & Hnone) & Hrest).
  assert (st0 = st) as -> by congruence.
  destruct (execute_subtask_cases env config taskId subtasks r st w_r
              Hwf_r Hin Hst)
    as (w_r' & Hstep & Hwf_r' & _ & _ & Hout).
  unfold iteration_outcome, dependencies_ok in Hout.
  rewrite Hdeps, (dependenciesMet_missing deps dep _ Hdep Hmissing) in Hout.
  simpl in Hout. subst w_r'.
  split; [exact Hstep |].
  destruct (Hrest _ Hstep Hwf_r')
    as (w_end & _ & Hrun & Hend & after & Hafter & Hnone').
  exists (w_results w_end), w_end, (before ++ after).
  split; [exact Hrun |]. split; [exact Hst0 |].
  assert (Hst_end : w_heap w_end !! r = Some st).
  { rewrite Hend. exact Hst. }
  split; [exact Hst_end |]. split.
  { intros Hpending. exists st. split; [exact Hst_end |].
    split; [exact Hpending | congruence]. }
  split.
  - rewrite Hafter. simpl. rewrite Hbefore, <- app_assoc. reflexivity.
  - rewrite posts_for_app, Hnone, Hnone'. reflexivity.
Qed.

Lemma world_researcher_only_well_formed env :
  well_formed_call (world_researcher_only env) "task-1" [0%nat; 1%nat].
Proof.
  split; [| split].
  - eexists. split; vm_compute; reflexivity.
  - repeat constructor; vm_compute; eauto.
  - vm_compute. apply NoDup_cons. split; [| apply NoDup_singleton].
    intros H. apply list_elem_of_singleton in H. discriminate H.
Qed.

Lemma world_no_agents_well_formed env :
  well_formed_call (world_no_agents env) "task-1" [0%nat; 1%nat].
Proof.
  split; [| split].
  - eexists. split; vm_compute; reflexivity.
  - repeat constructor; vm_compute; eauto.
  - vm_compute. apply NoDup_cons. split; [| apply NoDup_singleton].
    intros H. apply list_elem_of_singleton in H. discriminate H.
Qed.

Lemma unmet_dependency_skipped_witness :
  let w := world_researcher_only env_failing in
  let st := summarize_object 1700000000006 in
  ∃ results w_end sent,
    executeSubtasks env_failing demo_config "task-1" [0%nat; 1%nat] w
      = (Normal results, w_end) ∧
    w_heap w !! 1%nat = Some st ∧
    w_heap w_end !! 1%nat = Some st ∧
    (st_status st = pending →
     ∃ st', w_heap w_end !! 1%nat = Some st' ∧ st_status st' = pending ∧
            st_status st' ≠ failed) ∧
    w_requests w_end = w_requests w ++ sent ∧
    posts_for (st_id st) sent = [].
Proof.
  intros w st.
  refine (proj2 (unmet_dependency_skipped env_failing demo_config "task-1"
                   [0%nat; 1%nat] w [0%nat] 1%nat []
                   (snd (for_each (execute_subtask env_failing demo_config "task-1")
                                  [0%nat] (set_results (λ _, []) w)))
                   st [research] research _ _ _ _ _ _ _)).
  - apply world_researcher_only_well_formed.
  - vm_compute. reflexivity.
  - vm_compute. reflexivity.
  - vm_compute. reflexivity.
  - reflexivity.
  - left.
  - vm_compute. reflexivity.
Defined.

(** ** No capable agent *)




(** ** Delegation: one request, no retry *)




(** ** The handler *)

Lemma open_research_detailed env taskId query depth w :
  depth = JStr "detailed" ∨ depth = JStr "comprehensive" →
  ∃ w1 t0 t1,
    open_research env taskId query depth w
      = (Normal [length (w_heap w); S (length (w_heap w))], w1) ∧
    w_heap w1 = w_heap w ++
      [ {| st_id := taskId +:+ "-" +:+ pretty 0%nat; st_status := pending;
           st_createdAt := t0; st_spec := research_spec query;
           st_updatedAt := None; st_result := None |};
        {| st_id := taskId +:+ "-" +:+ pretty 1%nat; st_status := pending;
           st_createdAt := t1; st_spec := summarize_spec;
           st_updatedAt := None; st_result := None |} ] ∧
    w_agents w1 = w_agents w ∧
    w_requests w1 = w_requests w ∧
    ∃ task, w_tasks w1 !! taskId = Some task ∧
            t_subtasks task = [length (w_heap w); S (length (w_heap w))] ∧
            t_status task = in_progress.
Proof.
  intros Hdepth.
  unfold open_research, decomposeQuery.
  assert (is_string "comprehensive" depth || is_string "detailed" depth = true) as ->.
  { apply orb_true_iff. rewrite !is_string_true. tauto. }
  unfold createTask, updateTask, getTask, addSubtask, for_each, bind, Date_now,
    modify, gets, ret, task_or_throw, alloc, console_log.
  cbn -[pretty String.append].
  repeat (rewrite lookup_insert_eq; cbn -[pretty String.append]).
  rewrite length_app, Nat.add_1_r.
  eexists _, _, _. split; [reflexivity |].
  cbn -[pretty String.append]. rewrite <- app_assoc.
  split; [reflexivity |]. split; [reflexivity |]. split; [reflexivity |].
  rewrite lookup_insert_eq. eexists. split; [reflexivity |].
  split; reflexivity.
Qed.

Lemma subtask_ids_differ (taskId : string) :
  taskId +:+ "-" +:+ pretty 0%nat ≠ taskId +:+ "-" +:+ pretty 1%nat.
Proof.
  intros H. apply String.app_inj in H. apply String.app_inj in H.
  vm_compute in H. discriminate H.
Qed.

Lemma open_research_well_formed env taskId query depth w :
  ∃ w1 subtasks,
    open_research env taskId query depth w = (Normal subtasks, w1) ∧
    well_formed_call w1 taskId subtasks ∧
    subtasks ≠ [] ∧
    ∃ task, w_tasks w1 !! taskId = Some task ∧ t_status task = in_progress.
Proof.
  destruct (is_string "comprehensive" depth || is_string "detailed" depth) eqn:E.
  - assert (Hdepth : depth = JStr "detailed" ∨ depth = JStr "comprehensive").
    { apply orb_true_iff in E. rewrite !is_string_true in E. tauto. }
    destruct (open_research_detailed env taskId query depth w Hdepth)
      as (w1 & t0 & t1 & Hrun & Hheap & _ & _ & task & Htask & Hsub & Hstatus).
    exists w1, [length (w_heap w); S (length (w_heap w))].
    split; [exact Hrun |]. split; [| split; [discriminate | eauto]].
    split; [eauto |]. rewrite Hheap. split.
    + repeat constructor.
      * rewrite lookup_app_r, Nat.sub_diag by lia. eauto.
      * rewrite lookup_app_r by lia.
        replace (S (length (w_heap w)) - length (w_heap w))%nat with 1%nat by lia.
        eauto.
    + rewrite !fmap_cons, fmap_nil.
      rewrite lookup_app_r, Nat.sub_diag by lia.
      rewrite (lookup_app_r _ _ (S _)) by lia.
      replace (S (length (w_heap w)) - length (w_heap w))%nat with 1%nat by lia.
      cbn -[pretty String.append].
      apply NoDup_cons. split; [| apply NoDup_singleton].
      intros H. apply list_elem_of_singleton in H. injection H as H.
      exact (subtask_ids_differ taskId H).
  - unfold open_research, decomposeQuery. rewrite E.
    unfold createTask, updateTask, getTask, addSubtask, for_each, bind, Date_now,
      modify, gets, ret, task_or_throw, alloc, console_log.
    cbn -[pretty String.append].
    repeat (rewrite lookup_insert_eq; cbn -[pretty String.append]).
    eexists _, _. split; [reflexivity |].
    split; [| split; [discriminate |]].
    + split; [| split].
      * cbn -[pretty String.append]. rewrite lookup_insert_eq.
        eexists. split; reflexivity.
      * cbn -[pretty String.append]. repeat constructor.
        rewrite lookup_app_r, Nat.sub_diag by lia. eauto.
      * cbn -[pretty String.append]. apply NoDup_singleton.
    + cbn -[pretty String.append]. rewrite lookup_insert_eq.
      eexists. split; reflexivity.
Qed.




(** The same request, looked at in the final world: the only subtask of the
    task has failed for want of an agent, and the task is completed. *)
Example every_subtask_failed_task_completed :
  let w' := snd (post_research env_failing demo_config "task-1"
                   {| rb_query := Some "rust async"; rb_depth := None |}
                   empty_world) in
  (t_status <$> w_tasks w' !! "task-1") = Some completed ∧
  (t_subtasks <$> w_tasks w' !! "task-1") = Some [0%nat] ∧
  (st_status <$> w_heap w' !! 0%nat) = Some failed.
Proof.
  split; [vm_compute; reflexivity |].
  split; vm_compute; reflexivity.
Qed.

(** ** Order of execution and the dependency gate *)

Lemma StronglySorted_sublist_of {A} (R : A → A → Prop) (k l : list A) :
  k `sublist_of` l → StronglySorted R l → StronglySorted R k.
Proof.
  induction 1 as [| x k l Hsub IH | x k l Hsub IH]; intros Hsorted.
  - constructor.
  - apply StronglySorted_inv in Hsorted as [Hsorted Hall].
    constructor; [apply IH, Hsorted |].
    rewrite Forall_forall in Hall |- *.
    intros y Hy. apply Hall. eapply elem_of_sublist; eauto.
  - apply StronglySorted_inv in Hsorted as [Hsorted _]. apply IH, Hsorted.
Qed.

Lemma sent_priorities config taskId heap sent extra :
  Forall2 (carries config taskId heap) sent extra →
  request_priority <$> extra = priority_of heap <$> sent.
Proof.
  induction 1 as [| r rq sent extra (st & Hr & Hshape & _) _ IH];
    [reflexivity |].
  rewrite !fmap_cons, IH. f_equal.
  unfold request_priority, priority_of. rewrite Hr.
  injection Hshape as _ ->. reflexivity.
Qed.

Lemma StronglySorted_priorities heap l :
  StronglySorted (λ a b, priority_of heap a ≤ priority_of heap b) l →
  StronglySorted Z.le (priority_of heap <$> l).
Proof.
  induction 1 as [| r l _ IH Hall]; [constructor |].
  rewrite fmap_cons. constructor; [exact IH |].
  rewrite Forall_fmap. exact Hall.
Qed.

Lemma results_get_set k k' v results :
  results_get k (results_set k' v results)
    = if decide (k' = k) then Some v else results_get k results.
Proof.
  induction results as [| [k0 v0] results IH]; simpl.
  - destruct (decide (k' = k)); reflexivity.
  - destruct (decide (k0 = k')) as [-> | Hne]; simpl.
    + destruct (decide (k' = k)); reflexivity.
    + destruct (decide (k0 = k)) as [-> | Hne'].
      * destruct (decide (k' = k)); [congruence | reflexivity].
      * exact IH.
Qed.

Ltac results_kept := left; simpl; congruence.

Ltac results_assigned st :=
  right; exists st;
  match goal with
  | H : w_results _ = results_set _ ?v _ |- _ => exists v
  end;
  split; [first [assumption | reflexivity] | simpl; congruence].

(** An iteration leaves [results] alone or assigns the entry of its own
    subtask type; this holds on every path, thrown or not. *)
Lemma execute_subtask_results env config taskId r w :
  let w' := snd (execute_subtask env config taskId r w) in
  w_results w' = w_results w ∨
  ∃ st value,
    w_heap w !! r = Some st ∧
    w_results w' = results_set (sp_type (st_spec st)) value (w_results w).
Proof.
  unfold execute_subtask, bind, deref, gets.
  destruct (w_heap w !! r) as [st |] eqn:Hr; [| left; reflexivity].
  destruct (match sp_dependsOn (st_spec st) with
            | Some deps => negb (dependenciesMet deps (w_results w))
            | None => false
            end); [left; reflexivity |].
  unfold findAgentsByCapability, gets.
  destruct (List.filter _ (map snd (w_agents w))) as [| agent rest].
  - unfold console_error, modify. frame_of_update; results_kept.
  - unfold console_log, console_error, modify. frame_of_update;
      [| results_kept].
    unfold try_catch, bind, deref, gets.
    match goal with H : shapes (w_heap ?w1) = shapes (w_heap w) |- _ =>
      pose proof (shapes_lookup _ _ r H) as Hr1; rewrite Hr in Hr1;
      destruct (w_heap w1 !! r) as [st1 |] eqn:Hst1; simplify_eq/= end.
    rewrite delegateTask_run.
    destruct (delegation_outcome _) as [message | value].
    + frame_of_update; results_kept.
    + unfold modify. frame_of_update.
      * frame_of_update.
        -- results_assigned st.
        -- unfold console_error, modify. frame_of_update; results_assigned st.
      * unfold console_error, modify. frame_of_update; results_assigned st.
Qed.

(** Every entry of [results] after a part of the loop was there before or
    was assigned by the iteration of a subtask of that type. *)
Lemma for_each_results env config taskId l w k v :
  results_get k (w_results (snd (for_each (execute_subtask env config taskId) l w)))
    = Some v →
  is_Some (results_get k (w_results w)) ∨
  ∃ r st, r ∈ l ∧ w_heap w !! r = Some st ∧ sp_type (st_spec st) = k.
Proof.
  revert w. induction l as [| r l IH]; intros w; simpl.
  { intros H. left. eauto. }
  unfold bind.
  pose proof (execute_subtask_results env config taskId r w) as Hres.
  pose proof (execute_subtask_sends env config taskId r w) as (Hshapes & _).
  destruct (execute_subtask env config taskId r w) as [[[] | m] w1];
    simpl in Hres, Hshapes; intros Hget.
  - assert (Hstep : is_Some (results_get k (w_results w1)) →
      is_Some (results_get k (w_results w)) ∨
      ∃ r0 st, r0 ∈ r :: l ∧ w_heap w !! r0 = Some st ∧ sp_type (st_spec st) = k).
    { intros Hsome. destruct Hres as [<- | (st & value & Hr & Hset)];
        [left; exact Hsome |].
      rewrite Hset, results_get_set in Hsome.
      destruct (decide (sp_type (st_spec st) = k)) as [Hk | _].
      - right. exists r, st. split; [left | auto].
      - left. exact Hsome. }
    destruct (IH w1 Hget) as [Hsome | (r0 & st0 & Hin & Hr0 & Hk)];
      [exact (Hstep Hsome) |].
    right. pose proof (shapes_lookup _ _ r0 Hshapes) as Hl. rewrite Hr0 in Hl.
    destruct (w_heap w !! r0) as [st |] eqn:Hst; [| discriminate Hl].
    exists r0, st. split; [right; exact Hin |]. split; [exact Hst |].
    injection Hl as _ Hspec. congruence.
  - simpl in Hget. destruct Hres as [Hsame | (st & value & Hr & Hset)].
    + left. rewrite <- Hsame. eauto.
    + rewrite Hset, results_get_set in Hget.
      destruct (decide (sp_type (st_spec st) = k)) as [Hk | _].
      * right. exists r, st. split; [left | auto].
      * left. eauto.
Qed.

Lemma delegated_dependencies env config taskId r w st deps dep :
  w_heap w !! r = Some st →
  sp_dependsOn (st_spec st) = Some deps →
  dep ∈ deps →
  w_requests (snd (execute_subtask env config taskId r w)) ≠ w_requests w →
  ∃ value, results_get dep (w_results w) = Some value ∧ truthy value = true.
Proof.
  intros Hst Hdeps Hdep Hsent.
  destruct (execute_subtask_sends env config taskId r w)
    as (_ & _ & [Hsame | (st' & _ & _ & _ & Hst' & Hok & _)]);
    [contradiction |].
  assert (st' = st) as -> by congruence.
  unfold dependencies_ok in Hok. rewrite Hdeps in Hok.
  exact (dependenciesMet_entries deps dep _ Hok Hdep).
Qed.

Lemma summarize_after_research env config taskId w query depth :
  depth = JStr "detailed" ∨ depth = JStr "comprehensive" →
  ∃ w1 r_research r_summarize st_research st_summarize w2,
    open_research env taskId query depth w
      = (Normal [r_research; r_summarize], w1) ∧
    sort_by_priority (w_heap w1) [r_research; r_summarize]
      = [r_research; r_summarize] ∧
    w_heap w1 !! r_research = Some st_research ∧
    sp_type (st_spec st_research) = research ∧
    w_heap w1 !! r_summarize = Some st_summarize ∧
    sp_type (st_spec st_summarize) = summarize ∧
    execute_subtask env config taskId r_research (set_results (λ _, []) w1)
      = (Normal tt, w2) ∧
    (w_requests (snd (execute_subtask env config taskId r_summarize w2))
       ≠ w_requests w2 →
     ∃ st value task agentName sr,
       w_heap w2 !! r_research = Some st ∧
       st_status st = completed ∧
       st_result st = Some value ∧
       results_get research (w_results w2) = Some value ∧
       w_tasks w2 !! taskId = Some task ∧
       t_results task !! agentName = Some sr ∧
       sr_data sr = value).
Proof.
  intros Hdepth.
  destruct (open_research_detailed env taskId query depth w Hdepth)
    as (w1 & t0 & t1 & Hopen & Hheap & _ & _ & _).
  destruct (open_research_well_formed env taskId query depth w)
    as (w1' & subtasks & Hopen' & Hwf & _).
  rewrite Hopen in Hopen'. injection Hopen' as <- <-.
  set (n := length (w_heap w)) in *.
  assert (H0 : w_heap w1 !! n = Some
    {| st_id := taskId +:+ "-" +:+ pretty 0%nat; st_status := pending;
       st_createdAt := t0; st_spec := research_spec query;
       st_updatedAt := None; st_result := None |}).
  { rewrite Hheap, lookup_app_r by (unfold n; lia).
    unfold n. rewrite Nat.sub_diag. reflexivity. }
  assert (H1 : w_heap w1 !! S n = Some
    {| st_id := taskId +:+ "-" +:+ pretty 1%nat; st_status := pending;
       st_createdAt := t1; st_spec := summarize_spec;
       st_updatedAt := None; st_result := None |}).
  { rewrite Hheap, lookup_app_r by (unfold n; lia).
    replace (S n - length (w_heap w))%nat with 1%nat by (unfold n; lia).
    reflexivity. }
  set (start := set_results (λ _, []) w1).
  assert (Hwf0 : well_formed_call start taskId [n; S n]) by exact Hwf.
  destruct (execute_subtask_cases env config taskId [n; S n] n _ start Hwf0
              ltac:(left) H0)
    as (w2 & Hstep & Hwf2 & _ & Hother & Hout).
  eexists w1, n, (S n), _, _, w2.
  split; [exact Hopen |]. split.
  { unfold sort_by_priority. simpl. unfold priority_of. rewrite H0, H1.
    reflexivity. }
  split; [exact H0 |]. split; [reflexivity |].
  split; [exact H1 |]. split; [reflexivity |].
  split; [exact Hstep |].
  intros Hsent.
  assert (Hsum : w_heap w2 !! S n = Some
    {| st_id := taskId +:+ "-" +:+ pretty 1%nat; st_status := pending;
       st_createdAt := t1; st_spec := summarize_spec;
       st_updatedAt := None; st_result := None |}).
  { rewrite Hother by lia. exact H1. }
  destruct (delegated_dependencies env config taskId (S n) w2 _ [research]
              research Hsum eq_refl ltac:(left) Hsent)
    as (value & Hvalue & Htruthy).
  unfold iteration_outcome in Hout. simpl in Hout.
  destruct (List.filter _ _) as [| agent rest].
  { destruct Hout as (_ & Hresults & _). rewrite Hresults in Hvalue.
    discriminate Hvalue. }
  destruct Hout as (rq & _ & _ & _ & _ & _ & _ & _ & Hout).
  destruct (delegation_outcome _) as [message | value'].
  { destruct Hout as (Hresults & _). rewrite Hresults in Hvalue.
    discriminate Hvalue. }
  destruct Hout as (Hresults & (st & Hst & Hcompleted & Hresult)
                    & task & sr & Htask & Hsr & Hdata).
  rewrite Hresults in Hvalue. simpl in Hvalue.
  injection Hvalue as ->.
  rewrite Htruthy in Hresult.
  exists st, value, task, (ai_name (ag_info agent)), sr.
  rewrite Hresults. simpl. auto 10.
Qed.

(** C1.  (a) The loop of [executeSubtasks] walks the subtasks in ascending
    priority order: the list it walks is a permutation of its argument,
    sorted by priority, and the priorities of the requests it sends, in the
    order sent, are ascending.  (b) When the iteration of a subtask that
    declares dependencies sends a request, every named dependency has an
    entry (a truthy one) in [results] at that moment, and a subtask of that
    type was walked earlier in the same run.  (c) For
    a detailed or comprehensive request the handler runs the research
    subtask first, and if the iteration of the summarize subtask sends a
    request, the research subtask is already completed, with its result in
    the subtask, in [results] and in the results of the task. *)
Theorem subtasks_run_in_priority_order env config taskId :
  (∀ subtasks w,
     let sorted := sort_by_priority (w_heap w) subtasks in
     let w_end := snd (executeSubtasks env config taskId subtasks w) in
     Permutation sorted subtasks ∧
     StronglySorted (λ a b, priority_of (w_heap w) a ≤ priority_of (w_heap w) b)
                    sorted ∧
     w_end = snd (for_each (execute_subtask env config taskId) sorted
                           (set_results (λ _, []) w)) ∧
     ∃ sent, w_requests w_end = w_requests w ++ sent ∧
             StronglySorted Z.le (request_priority <$> sent)) ∧
  (∀ subtasks w pre r post w_r st deps dep,
     sort_by_priority (w_heap w) subtasks = pre ++ r :: post →
     for_each (execute_subtask env config taskId) pre (set_results (λ _, []) w)
       = (Normal tt, w_r) →
     w_heap w_r !! r = Some st →
     sp_dependsOn (st_spec st) = Some deps →
     dep ∈ deps →
     w_requests (snd (execute_subtask env config taskId r w_r)) ≠ w_requests w_r →
     ∃ value r' st',
       results_get dep (w_results w_r) = Some value ∧
       truthy value = true ∧
       r' ∈ pre ∧ w_heap w !! r' = Some st' ∧ sp_type (st_spec st') = dep) ∧
  (∀ w query depth,
     depth = JStr "detailed" ∨ depth = JStr "comprehensive" →
     ∃ w1 r_research r_summarize st_research st_summarize w2,
       open_research env taskId query depth w
         = (Normal [r_research; r_summarize], w1) ∧
       sort_by_priority (w_heap w1) [r_research; r_summarize]
         = [r_research; r_summarize] ∧
       w_heap w1 !! r_research = Some st_research ∧
       sp_type (st_spec st_research) = research ∧
       w_heap w1 !! r_summarize = Some st_summarize ∧
       sp_type (st_spec st_summarize) = summarize ∧
       execute_subtask env config taskId r_research (set_results (λ _, []) w1)
         = (Normal tt, w2) ∧
       (w_requests (snd (execute_subtask env config taskId r_summarize w2))
          ≠ w_requests w2 →
        ∃ st value task agentName sr,
          w_heap w2 !! r_research = Some st ∧
          st_status st = completed ∧
          st_result st = Some value ∧
          results_get research (w_results w2) = Some value ∧
          w_tasks w2 !! taskId = Some task ∧
          t_results task !! agentName = Some sr ∧
          sr_data sr = value)).
Proof.
  split; [| split].
  - intros subtasks w sorted w_end.
    split; [apply sort_by_priority_perm |].
    split; [apply sort_by_priority_sorted |].
    assert (Hend : w_end = snd (for_each (execute_subtask env config taskId)
                                  sorted (set_results (λ _, []) w))).
    { unfold w_end. rewrite executeSubtasks_unfold. fold sorted.
      destruct (for_each _ sorted _) as [[[] | m] w']; reflexivity. }
    split; [exact Hend |].
    destruct (for_each_sends env config taskId sorted (set_results (λ _, []) w))
      as (_ & _ & sent & extra & Hsub & Hreq & Hcarry).
    exists extra. rewrite Hend. split; [exact Hreq |].
    rewrite (sent_priorities _ _ _ _ _ Hcarry).
    apply StronglySorted_priorities.
    eapply StronglySorted_sublist_of; [exact Hsub |].
    apply sort_by_priority_sorted.
  - intros subtasks w pre r post w_r st deps dep _ Hpre Hst Hdeps Hdep Hsent.
    destruct (delegated_dependencies env config taskId r w_r st deps dep
                Hst Hdeps Hdep Hsent) as (value & Hvalue & Htruthy).
    pose proof (for_each_results env config taskId pre
                  (set_results (λ _, []) w) dep value) as Hfrom.
    rewrite Hpre in Hfrom.
    destruct (Hfrom Hvalue) as [[v Hv] | (r' & st' & Hin & Hr' & Htype)];
      [discriminate Hv |].
    exists value, r', st'. auto.
  - intros w query depth. apply summarize_after_research.
Qed.

Lemma subtasks_run_in_priority_order_witness :
  let w := world_both_agents env_answering in
  let w_r := snd (for_each (execute_subtask env_answering demo_config "task-1")
                           [0%nat] (set_results (λ _, []) w)) in
  ∃ value r' st',
    results_get research (w_results w_r) = Some value ∧
    truthy value = true ∧
    r' ∈ [0%nat] ∧ w_heap w !! r' = Some st' ∧
    sp_type (st_spec st') = research.
Proof.
  intros w w_r.
  refine (proj1 (proj2 (subtasks_run_in_priority_order
                          env_answering demo_config "task-1"))
            [0%nat; 1%nat] w [0%nat] 1%nat [] w_r
            (summarize_object 1700000000008) [research] research
            _ _ _ _ _ _).
  - vm_compute. reflexivity.
  - vm_compute. reflexivity.
  - vm_compute. reflexivity.
  - reflexivity.
  - left.
  - intros H. vm_compute in H. discriminate H.
Defined.

(** * Further properties of the state manager *)

(** X1.  For a task id that is not in the task map, [updateTask],
    [addSubtask], [updateSubtask] and [storeResult] throw
    ["Task <id> not found"] before they read the clock or change anything;
    [getTask] returns [null], [getResults] an empty object and
    [areSubtasksComplete] [false]. *)
Theorem unknown_task_rejected env taskId w :
  w_tasks w !! taskId = None →
  (∀ status updates,
     updateTask env taskId status updates w
       = (Throw ("Task " +:+ taskId +:+ " not found"), w)) ∧
  (∀ subtask,
     addSubtask env taskId subtask w
       = (Throw ("Task " +:+ taskId +:+ " not found"), w)) ∧
  (∀ subtaskId status result,
     updateSubtask env taskId subtaskId status result w
       = (Throw ("Task " +:+ taskId +:+ " not found"), w)) ∧
  (∀ agentName result,
     storeResult env taskId agentName result w
       = (Throw ("Task " +:+ taskId +:+ " not found"), w)) ∧
  getTask taskId w = (Normal None, w) ∧
  getResults taskId w = (Normal ∅, w) ∧
  areSubtasksComplete taskId w = (Normal false, w).
Proof.
  intros Hnone.
  unfold areSubtasksComplete, updateTask, addSubtask, updateSubtask,
    storeResult, getTask, getResults, bind, task_or_throw, gets, ret.
  rewrite Hnone. repeat split; intros; reflexivity.
Qed.

Lemma unknown_task_rejected_witness :
  (∀ status updates,
     updateTask env_failing "task-9" status updates empty_world
       = (Throw ("Task " +:+ "task-9" +:+ " not found"), empty_world)) ∧
  (∀ subtask,
     addSubtask env_failing "task-9" subtask empty_world
       = (Throw ("Task " +:+ "task-9" +:+ " not found"), empty_world)) ∧
  (∀ subtaskId status result,
     updateSubtask env_failing "task-9" subtaskId status result empty_world
       = (Throw ("Task " +:+ "task-9" +:+ " not found"), empty_world)) ∧
  (∀ agentName result,
     storeResult env_failing "task-9" agentName result empty_world
       = (Throw ("Task " +:+ "task-9" +:+ " not found"), empty_world)) ∧
  getTask "task-9" empty_world = (Normal None, empty_world) ∧
  getResults "task-9" empty_world = (Normal ∅, empty_world) ∧
  areSubtasksComplete "task-9" empty_world = (Normal false, empty_world).
Proof.
  exact (unknown_task_rejected env_failing "task-9" empty_world eq_refl).
Defined.




Lemma addSubtask_run env taskId spec w task :
  w_tasks w !! taskId = Some task →
  ∃ w' task',
    addSubtask env taskId spec w = (Normal tt, w') ∧
    w_tasks w' !! taskId = Some task' ∧
    (∀ other, other ≠ taskId → w_tasks w' !! other = w_tasks w !! other) ∧
    t_subtasks task' = t_subtasks task ++ [length (w_heap w)] ∧
    t_status task' = t_status task ∧
    t_results task' = t_results task ∧
    t_data task' = t_data task ∧
    w_heap w'
      = w_heap w ++ [new_subtask taskId (length (t_subtasks task))
                                 (date_now env (w_ticks w)) spec] ∧
    w_ticks w' = S (S (w_ticks w)) ∧
    w_agents w' = w_agents w ∧
    w_requests w' = w_requests w.
Proof.
  intros Htask.
  unfold addSubtask, bind, task_or_throw, Date_now, alloc, modify.
  rewrite Htask. cbn -[pretty String.append].
  eexists _, _. split; [reflexivity |].
  cbn -[pretty String.append]. rewrite lookup_insert_eq.
  split; [reflexivity |]. split.
  { intros other Hne. apply lookup_insert_ne. congruence. }
  repeat split.
Qed.

Lemma for_each_addSubtask env taskId specs :
  ∀ w task,
    w_tasks w !! taskId = Some task →
    ∃ w' task',
      for_each (addSubtask env taskId) specs w = (Normal tt, w') ∧
      w_tasks w' !! taskId = Some task' ∧
      (∀ other, other ≠ taskId → w_tasks w' !! other = w_tasks w !! other) ∧
      t_subtasks task'
        = t_subtasks task ++ seq (length (w_heap w)) (length specs) ∧
      t_status task' = t_status task ∧
      t_results task' = t_results task ∧
      t_data task' = t_data task ∧
      w_heap w'
        = w_heap w ++
          imap (λ i spec,
                  new_subtask taskId (length (t_subtasks task) + i)
                              (date_now env (w_ticks w + 2 * i)%nat) spec)
               specs ∧
      w_agents w' = w_agents w ∧
      w_requests w' = w_requests w.
Proof.
  induction specs as [| spec specs IH]; intros w task Htask.
  - exists w, task. simpl. rewrite !app_nil_r. auto 10.
  - destruct (addSubtask_run env taskId spec w task Htask)
      as (w1 & task1 & Hrun1 & Htask1 & Hother1 & Hsub1 & Hst1 & Hres1 & Hdata1
          & Hheap1 & Hticks1 & Hag1 & Hrq1).
    destruct (IH w1 task1 Htask1)
      as (w' & task' & Hrun & Htask' & Hother & Hsub & Hst & Hres & Hdata
          & Hheap & Hag & Hrq).
    exists w', task'. simpl. unfold bind. rewrite Hrun1.
    split; [exact Hrun |]. split; [exact Htask' |]. split.
    { intros other Hne. rewrite Hother, Hother1 by assumption. reflexivity. }
    split.
    { rewrite Hsub, Hsub1, Hheap1, length_app, <- app_assoc. simpl.
      rewrite Nat.add_1_r. reflexivity. }
    split; [congruence |]. split; [congruence |]. split; [congruence |].
    split; [| split; congruence].
    rewrite Hheap, Hheap1, <- app_assoc. f_equal. simpl.
    rewrite Nat.add_0_r, Nat.add_0_r. f_equal.
    apply imap_ext. intros i x _. simpl.
    rewrite Hsub1, length_app, Hticks1. simpl.
    replace (length (t_subtasks task) + 1 + i)%nat
      with (length (t_subtasks task) + S i)%nat by lia.
    replace (S (S (w_ticks w + (i + (i + 0)))))%nat
      with (w_ticks w + S (i + S (i + 0)))%nat by lia.
    reflexivity.
Qed.


(** X3.  [createTask] followed by [addSubtask] for each of [n] subtasks
    leaves the task with exactly [n] subtasks, whatever was stored under the
    id before; the [i]-th is pending, carries the [i]-th description and has
    id ["<taskId>-<i>"], so the ids are pairwise different and the task is
    ready for [executeSubtasks].  Other tasks and older subtask objects are
    untouched. *)
Theorem addSubtask_numbers_ids env taskId data specs w :
  let run := (createTask env taskId data ;;
              for_each (addSubtask env taskId) specs) w in
  let base := length (w_heap w) in
  fst run = Normal tt ∧
  well_formed_call (snd run) taskId (seq base (length specs)) ∧
  (∀ i spec, specs !! i = Some spec →
     ∃ st, w_heap (snd run) !! (base + i)%nat = Some st ∧
           st_id st = taskId +:+ "-" +:+ pretty i ∧
           st_status st = pending ∧
           st_spec st = spec ∧
           st_result st = None) ∧
  (∀ other, other ≠ taskId → w_tasks (snd run) !! other = w_tasks w !! other) ∧
  (∀ r, (r < base)%nat → w_heap (snd run) !! r = w_heap w !! r).
Proof.
  intros run base.
  set (w0 := snd (createTask env taskId data w)).
  assert (Htask0 : ∃ task0, w_tasks w0 !! taskId = Some task0 ∧
                            t_subtasks task0 = []).
  { eexists. unfold w0, createTask, bind, Date_now, modify. simpl.
    rewrite lookup_insert_eq. split; reflexivity. }
  destruct Htask0 as (task0 & Htask0 & Hsub0).
  destruct (for_each_addSubtask env taskId specs w0 task0 Htask0)
    as (w' & task' & Hrun & Htask' & Hother & Hsub & _ & _ & _ & Hheap & _ & _).
  assert (Hrun' : run = (Normal tt, w')).
  { unfold run, bind. fold w0.
    change (createTask env taskId data w) with (Normal tt, w0).
    exact Hrun. }
  rewrite Hrun'. simpl.
  change (w_heap w0) with (w_heap w) in Hheap, Hsub. fold base in Hsub.
  rewrite Hsub0 in Hheap, Hsub. simpl in Hheap, Hsub.
  assert (Hobj : ∀ i spec, specs !! i = Some spec →
    w_heap w' !! (base + i)%nat
      = Some (new_subtask taskId i (date_now env (w_ticks w0 + 2 * i)%nat) spec)).
  { intros i spec Hi. rewrite Hheap, lookup_app_r by (unfold base; lia).
    replace (base + i - length (w_heap w))%nat with i by (unfold base; lia).
    rewrite list_lookup_imap, Hi. reflexivity. }
  split; [reflexivity |]. split; [| split; [| split]].
  - split; [eauto |]. split.
    + apply Forall_forall. intros r Hr. apply elem_of_seq in Hr.
      destruct (lookup_lt_is_Some_2 specs (r - base)) as [spec Hspec]; [lia |].
      specialize (Hobj _ _ Hspec).
      replace (base + (r - base))%nat with r in Hobj by lia. eauto.
    + assert (Hids : (λ r, st_id <$> w_heap w' !! r) <$> seq base (length specs)
                     = (λ i : nat, Some (taskId +:+ "-" +:+ pretty i))
                         <$> seq 0 (length specs)).
      { apply list_eq. intros i. rewrite !list_lookup_fmap.
        destruct (decide (i < length specs)%nat) as [Hlt | Hge].
        - rewrite !lookup_seq_lt by assumption. simpl.
          destruct (lookup_lt_is_Some_2 specs i Hlt) as [spec Hspec].
          rewrite (Hobj _ _ Hspec). reflexivity.
        - rewrite !lookup_seq_ge by lia. reflexivity. }
      rewrite Hids. apply (NoDup_fmap_2 _). apply NoDup_seq.
  - intros i spec Hi. rewrite (Hobj _ _ Hi). eexists. split; [reflexivity |].
    repeat split.
  - intros other Hne. rewrite Hother by assumption.
    unfold w0, createTask, bind, Date_now, modify. simpl.
    apply lookup_insert_ne. congruence.
  - intros r Hr. rewrite Hheap. apply lookup_app_l. exact Hr.
Qed.

Lemma addSubtask_numbers_ids_witness :
  let run := (createTask env_failing "task-1"
                {| td_query := "rust async"; td_depth := JStr "detailed";
                   td_type := "research" |} ;;
              for_each (addSubtask env_failing "task-1")
                       [research_spec "rust async"; summarize_spec])
               (world_no_agents env_failing) in
  fst run = Normal tt ∧
  well_formed_call (snd run) "task-1" [2%nat; 3%nat] ∧
  (∃ st, w_heap (snd run) !! 3%nat = Some st ∧
         st_id st = "task-1-1" ∧ st_status st = pending ∧
         st_spec st = summarize_spec ∧ st_result st = None).
Proof.
  pose proof (addSubtask_numbers_ids env_failing "task-1"
                {| td_query := "rust async"; td_depth := JStr "detailed";
                   td_type := "research" |}
                [research_spec "rust async"; summarize_spec]
                (world_no_agents env_failing)) as H.
  cbv zeta in H. destruct H as (H1 & H2 & H3 & _).
  split; [exact H1 |]. split; [exact H2 |].
  exact (H3 1%nat summarize_spec eq_refl).
Defined.

(** X4.  In a well-formed task, [updateSubtask] on the id of one of its
    subtasks sets the status of that object, stamps it, and replaces its
    result only when the new result is truthy: a [null], [false], [0] or
    [""] result leaves the earlier result in place.  Id and description of
    the object, every other subtask object and every other task stay as they
    are. *)
Theorem updateSubtask_effect env taskId subtasks r st status result w :
  well_formed_call w taskId subtasks →
  r ∈ subtasks →
  w_heap w !! r = Some st →
  ∃ w' st',
    updateSubtask env taskId (st_id st) status result w = (Normal tt, w') ∧
    w_heap w' !! r = Some st' ∧
    st_status st' = status ∧
    st_result st' = (if truthy result then Some result else st_result st) ∧
    st_updatedAt st' = Some (date_now env (w_ticks w)) ∧
    shape st' = shape st ∧
    (∀ r', r' ≠ r → w_heap w' !! r' = w_heap w !! r') ∧
    (∀ other, other ≠ taskId → w_tasks w' !! other = w_tasks w !! other) ∧
    well_formed_call w' taskId subtasks.
Proof.
  intros Hwf Hin Hr.
  destruct (updateSubtask_well_formed env taskId subtasks r st status result w
              Hwf Hin Hr) as (task & Htask & Hrun).
  eexists _, _. split; [exact Hrun |].
  rewrite updated_heap, list_lookup_alter_eq, Hr. simpl.
  split; [reflexivity |]. repeat (split; [reflexivity |]).
  split; [| split].
  - intros r' Hne. apply list_lookup_alter_ne. congruence.
  - intros other Hne. unfold updated. simpl. apply lookup_insert_ne. congruence.
  - apply updated_well_formed; assumption.
Qed.

Lemma updateSubtask_effect_witness :
  let w := world_no_agents env_failing in
  let st := research_object 1700000000002 in
  ∃ w' st',
    updateSubtask env_failing "task-1" (st_id st) completed JNull w
      = (Normal tt, w') ∧
    w_heap w' !! 0%nat = Some st' ∧
    st_status st' = completed ∧
    st_result st' = (if truthy JNull then Some JNull else st_result st) ∧
    st_updatedAt st' = Some (date_now env_failing (w_ticks w)) ∧
    shape st' = shape st ∧
    (∀ r', r' ≠ 0%nat → w_heap w' !! r' = w_heap w !! r') ∧
    (∀ other, other ≠ "task-1" → w_tasks w' !! other = w_tasks w !! other) ∧
    well_formed_call w' "task-1" [0%nat; 1%nat].
Proof.
  intros w st.
  refine (updateSubtask_effect env_failing "task-1" [0%nat; 1%nat] 0%nat st
            completed JNull w _ _ _).
  - apply world_no_agents_well_formed.
  - left.
  - vm_compute. reflexivity.
Defined.



(** ** The sweep and the list of online agents *)

Lemma sweep_sessions_lookup (now maxAge : Z) (sessions : gmap string Session)
    (k : string) :
  sweep_sessions now maxAge sessions !! k =
  match sessions !! k with
  | Some session => if session_expired now maxAge session then None else Some session
  | None => None
  end.
Proof.
  unfold sweep_sessions.
  rewrite (sweep_fold_lookup (session_expired now maxAge)).
  destruct (sessions !! k); reflexivity.
Qed.

(** X6.  [cleanup] deletes a session exactly when its last update is more
    than [maxAge] (one hour by default) before the sweep, whatever else the
    session holds; a surviving session is unchanged and no session appears.
    The sweep reads the clock once and touches neither the subtask objects,
    nor the coordinator's own agent map, nor the requests sent. *)
Theorem cleanup_sessions (env : Env) (maxAge : option Z) (w : World) :
  let now := date_now env (w_ticks w) in
  let age := default 3600000 maxAge in
  let w' := snd (cleanup env maxAge w) in
  (∀ sessionId session, w_sessions w !! sessionId = Some session →
     (w_sessions w' !! sessionId = None ↔ now - s_updatedAt session > age) ∧
     (w_sessions w' !! sessionId = None ∨
      w_sessions w' !! sessionId = Some session)) ∧
  (∀ sessionId, w_sessions w !! sessionId = None →
     w_sessions w' !! sessionId = None) ∧
  w_heap w' = w_heap w ∧
  w_agents w' = w_agents w ∧
  w_requests w' = w_requests w ∧
  w_ticks w' = S (w_ticks w).
Proof.
  intros now age w'.
  assert (Hsessions : w_sessions w' = sweep_sessions now age (w_sessions w))
    by reflexivity.
  split; [| split; [| repeat split]].
  - intros sessionId session Hsession.
    rewrite Hsessions, sweep_sessions_lookup, Hsession.
    unfold session_expired.
    destruct (Z.gtb_spec (now - s_updatedAt session) age).
    + split; [split; [intros _; lia | reflexivity] | left; reflexivity].
    + split; [split; [discriminate | lia] | right; reflexivity].
  - intros sessionId Hnone.
    rewrite Hsessions, sweep_sessions_lookup, Hnone. reflexivity.
Qed.

Lemma listed_online_true (now : Z) (agent : AgentStatus) :
  listed_online now agent = true ↔
  as_status agent = online ∧ now - as_lastSeen agent < 60000.
Proof.
  unfold listed_online. destruct (as_status agent).
  - rewrite Z.ltb_lt. split; [intros H; split; [reflexivity | exact H] | tauto].
  - split; [discriminate | intros [H _]; discriminate H].
Qed.

(** X7.  What [getOnlineAgents] lists right after a sweep: exactly the
    entries that were online before the sweep, were seen at most 60000 ms
    before the sweep, and are seen less than 60000 ms before the listing.
    The sweep keeps an agent that is exactly 60000 ms old online, the
    listing leaves it out. *)
Theorem online_after_cleanup (env : Env) (maxAge : option Z) (w : World) :
  let swept := date_now env (w_ticks w) in
  let now := date_now env (S (w_ticks w)) in
  let w' := snd (cleanup env maxAge w) in
  ∃ listed,
    getOnlineAgents env w' = (Normal listed, set_ticks S w') ∧
    ∀ agent, agent ∈ listed ↔
      ∃ agentName,
        w_agentStatus w !! agentName = Some agent ∧
        as_status agent = online ∧
        swept - as_lastSeen agent ≤ 60000 ∧
        now - as_lastSeen agent < 60000.
Proof.
  intros swept now w'.
  eexists. split; [reflexivity |].
  intros agent. cbn -[listed_online map_to_list].
  rewrite list_elem_of_In, filter_In, <- list_elem_of_In,
    listed_online_true, list_elem_of_fmap.
  change (date_now env (S (w_ticks w))) with now.
  split.
  - intros [[[agentName agent'] [-> Hin]] [Hon Hfresh]].
    apply elem_of_map_to_list in Hin. simpl in *.
    unfold sweep_agents in Hin. rewrite lookup_fmap in Hin.
    destruct (w_agentStatus w !! agentName) as [agent0 |] eqn:Hagent;
      [| discriminate Hin].
    simpl in Hin. injection Hin as Hin.
    unfold agent_stale in Hin. fold swept in Hin.
    destruct (Z.gtb_spec (swept - as_lastSeen agent0) 60000).
    + subst agent'. discriminate Hon.
    + subst agent'. exists agentName. auto.
  - intros (agentName & Hagent & Hon & Hswept & Hfresh).
    split; [| split; assumption].
    exists (agentName, agent). split; [reflexivity |].
    apply elem_of_map_to_list. unfold sweep_agents.
    rewrite lookup_fmap, Hagent. simpl. unfold agent_stale. fold swept.
    destruct (Z.gtb_spec (swept - as_lastSeen agent) 60000); [lia | reflexivity].
Qed.

(** ** The registry of the coordinator *)

Lemma map_get_set_eq {V} (k : string) (v : V) (m : list (string * V)) :
  map_get k (map_set k v m) = Some v.
Proof.
  unfold map_get. induction m as [| [k' v'] m IH]; simpl.
  - rewrite String.eqb_refl. reflexivity.
  - destruct (String.eqb k' k) eqn:E; simpl.
    + rewrite String.eqb_refl. reflexivity.
    + rewrite E. exact IH.
Qed.

Lemma map_get_set_ne {V} (k k' : string) (v : V) (m : list (string * V)) :
  k' ≠ k → map_get k' (map_set k v m) = map_get k' m.
Proof.
  intros Hne. unfold map_get. induction m as [| [k0 v0] m IH]; simpl.
  - apply String.eqb_neq in Hne. rewrite String.eqb_sym, Hne. reflexivity.
  - destruct (String.eqb k0 k) eqn:E; simpl.
    + apply String.eqb_eq in E. subst k0.
      assert (String.eqb k k' = false) as ->; [| reflexivity].
      apply String.eqb_neq. congruence.
    + destruct (String.eqb k0 k'); [reflexivity | exact IH].
Qed.

Lemma map_set_keys {V} (k : string) (v : V) (m : list (string * V)) :
  map fst (map_set k v m)
    = if decide (k ∈ map fst m) then map fst m else map fst m ++ [k].
Proof.
  induction m as [| [k' v'] m IH]; simpl.
  - destruct (decide (k ∈ [])) as [H | _]; [inversion H | reflexivity].
  - destruct (String.eqb_spec k' k) as [-> | Hne]; simpl.
    + destruct (decide (k ∈ k :: map fst m)) as [_ | H]; [reflexivity |].
      exfalso. apply H. left.
    + rewrite IH. destruct (decide (k ∈ map fst m)) as [Hin | Hout].
      * destruct (decide (k ∈ k' :: map fst m)) as [_ | H]; [reflexivity |].
        exfalso. apply H. right. exact Hin.
      * destruct (decide (k ∈ k' :: map fst m)) as [H | _]; [| reflexivity].
        apply elem_of_cons in H as [-> | H]; [congruence | contradiction].
Qed.

Lemma map_set_elem_of {V} (k : string) (v : V) (m : list (string * V))
    (entry : string * V) :
  NoDup (map fst m) →
  entry ∈ map_set k v m ↔ entry = (k, v) ∨ (fst entry ≠ k ∧ entry ∈ m).
Proof.
  induction m as [| [k' v'] m IH]; simpl; intros Hnodup.
  - rewrite list_elem_of_singleton. split; [auto |].
    intros [H | [_ H]]; [exact H | inversion H].
  - apply NoDup_cons in Hnodup as [Hk' Hnodup].
    destruct (String.eqb_spec k' k) as [-> | Hne].
    + rewrite !elem_of_cons. split.
      * intros [H | H]; [auto |]. right. split; [| auto].
        intros Heq. apply Hk'. rewrite <- Heq.
        apply list_elem_of_fmap. exists entry. auto.
      * intros [H | [Hfst [H | H]]]; [auto | | auto].
        subst entry. contradiction.
    + rewrite !elem_of_cons, (IH Hnodup). split.
      * intros [H | [H | [Hfst H]]]; [| auto | auto].
        right. subst entry. auto.
      * intros [H | [Hfst [H | H]]]; auto.
Qed.

Lemma map_set_kept {V} (P : string * V → Prop) (k : string) (v : V)
    (m : list (string * V)) :
  NoDup (map fst m) → Forall P m → P (k, v) →
  NoDup (map fst (map_set k v m)) ∧ Forall P (map_set k v m).
Proof.
  intros Hnodup Hall Hnew. split.
  - rewrite map_set_keys.
    destruct (decide (k ∈ map fst m)) as [_ | Hout]; [exact Hnodup |].
    apply NoDup_app. split; [exact Hnodup |].
    split; [| apply NoDup_singleton].
    intros k' Hk Hk'. apply list_elem_of_singleton in Hk'. subst k'. contradiction.
  - apply Forall_forall. intros entry Hin.
    apply (map_set_elem_of _ _ _ _ Hnodup) in Hin as [-> | [_ Hin]];
      [exact Hnew |].
    exact (proj1 (Forall_forall _ _) Hall entry Hin).
Qed.

Lemma registerAgent_run env info w :
  registerAgent env info w =
  (Normal tt,
   set_console (λ c, c ++ [Log ("[Coordinator] Registered agent: "
                               +:+ ai_name info)])
     (set_agentStatus (insert (ai_name info)
        {| as_name := ai_name info; as_status := online;
           as_lastSeen := date_now env (S (w_ticks w)); as_info := info |})
        (set_ticks S
           (set_agents (map_set (ai_name info)
              {| ag_info := info; ag_lastSeen := date_now env (w_ticks w) |})
              (set_ticks S w))))).
Proof. reflexivity. Qed.

(** X8.  [registerAgent] files the agent under its name in both maps.  In
    the coordinator's map a name that is already known keeps its place in
    the order and gets the new entry, a new name goes to the end; every
    other entry is kept.  In the state manager the agent is online, with a
    clock reading taken after the one of the coordinator's entry.  Tasks,
    subtask objects and sent requests are not touched. *)
Theorem registerAgent_registry env info w :
  let w' := snd (registerAgent env info w) in
  fst (registerAgent env info w) = Normal tt ∧
  map_get (ai_name info) (w_agents w')
    = Some {| ag_info := info; ag_lastSeen := date_now env (w_ticks w) |} ∧
  (∀ other, other ≠ ai_name info →
     map_get other (w_agents w') = map_get other (w_agents w)) ∧
  map fst (w_agents w')
    = (if decide (ai_name info ∈ map fst (w_agents w))
       then map fst (w_agents w)
       else map fst (w_agents w) ++ [ai_name info]) ∧
  fst (getAgentStatus (ai_name info) w')
    = Normal (Some {| as_name := ai_name info; as_status := online;
                      as_lastSeen := date_now env (S (w_ticks w));
                      as_info := info |}) ∧
  (∀ other, other ≠ ai_name info →
     fst (getAgentStatus other w') = fst (getAgentStatus other w)) ∧
  (registry_ok w → registry_ok w') ∧
  w_tasks w' = w_tasks w ∧ w_heap w' = w_heap w ∧ w_requests w' = w_requests w.
Proof.
  intros w'. subst w'. rewrite registerAgent_run. simpl.
  split; [reflexivity |].
  split; [apply map_get_set_eq |].
  split; [intros other Hne; apply map_get_set_ne; exact Hne |].
  split; [apply map_set_keys |].
  unfold getAgentStatus, gets. cbn [fst w_agentStatus set_console set_agentStatus].
  split; [f_equal; apply lookup_insert_eq |].
  split; [intros other Hne; f_equal; apply lookup_insert_ne; congruence |].
  split; [| auto].
  intros [Hnodup Hnames].
  apply map_set_kept; [exact Hnodup | exact Hnames | reflexivity].
Qed.





(** ** The handler of [POST /research], by cases *)

















(** ** Completed tasks and settled subtasks *)





(** ** Delegation and the online status *)





(** * The API-key routes of the framework *)

Module SessionsFacts.
Import Sessions.

Lemma substring_all (s : string) : String.substring 0 (String.length s) s = s.
Proof. induction s as [| c s IH]; simpl; [reflexivity | rewrite IH; reflexivity]. Qed.

Lemma prefix_split (p h : string) :
  String.prefix p h = true →
  h = p +:+ String.substring (String.length p)
                             (String.length h - String.length p) h.
Proof.
  revert h. induction p as [| a p IH]; intros h Hprefix.
  - simpl. rewrite Nat.sub_0_r, substring_all. reflexivity.
  - destruct h as [| b h]; [discriminate Hprefix |].
    simpl in Hprefix. destruct (Ascii.ascii_dec a b) as [-> | _];
      [| discriminate Hprefix].
    simpl String.length. simpl Nat.sub. simpl String.substring.
    change (String b h = String b (p +:+ String.substring (String.length p)
                            (String.length h - String.length p) h)).
    f_equal. exact (IH h Hprefix).
Qed.

Lemma prefix_app (p key : string) : String.prefix p (p +:+ key) = true.
Proof.
  induction p as [| a p IH]; [destruct key; reflexivity |].
  simpl. destruct (Ascii.ascii_dec a a); [exact IH | contradiction].
Qed.

Lemma substring_app (p key : string) :
  String.substring (String.length p)
                   (String.length (p +:+ key) - String.length p) (p +:+ key)
    = key.
Proof.
  induction p as [| a p IH]; simpl.
  - rewrite Nat.sub_0_r. apply substring_all.
  - exact IH.
Qed.

Lemma validate_bearer (key : string) (agents : Registration.Storage) :
  validateApiKey (Some ("Bearer " +:+ key)) agents =
  match Registration.findAgentByApiKey key agents with
  | None => Invalid "Invalid API key"
  | Some agent => Valid agent
  end.
Proof.
  unfold validateApiKey.
  assert (String.eqb ("Bearer " +:+ key) "" = false) as -> by reflexivity.
  rewrite prefix_app.
  change 7%nat with (String.length "Bearer ").
  rewrite substring_app. reflexivity.
Qed.

Lemma valid_bearer (authorization : option string)
    (agents : Registration.Storage) (agent : Registration.Agent) :
  validateApiKey authorization agents = Valid agent →
  ∃ key, authorization = Some ("Bearer " +:+ key) ∧
         Registration.findAgentByApiKey key agents = Some agent.
Proof.
  unfold validateApiKey. destruct authorization as [h |]; [| discriminate].
  destruct (String.eqb h ""); [discriminate |].
  destruct (String.prefix "Bearer " h) eqn:Hprefix; [| discriminate].
  simpl negb. cbv iota.
  destruct (Registration.findAgentByApiKey _ agents) as [a |] eqn:Hfind;
    [| discriminate].
  intros [= ->]. eexists. split; [| exact Hfind].
  f_equal. exact (prefix_split _ _ Hprefix).
Qed.

(** X15.  [validateApiKey] accepts a request exactly when its
    [authorization] header is ["Bearer "] followed by the API key of a
    stored agent, and then returns the first stored agent with that key; a
    key without the prefix, or with another spelling of it, is refused.
    [requireAuth] returns the same agent and otherwise throws one of the two
    messages of [validateApiKey], never its fallback message. *)
Theorem validateApiKey_spec (authorization : option string)
    (agents : Registration.Storage) (agent : Registration.Agent) :
  (validateApiKey authorization agents = Valid agent ↔
   ∃ key, authorization = Some ("Bearer " +:+ key) ∧
          Registration.findAgentByApiKey key agents = Some agent) ∧
  (validateApiKey authorization agents = Valid agent →
   authorization = Some ("Bearer " +:+ Registration.apiKey agent) ∧
   In agent (map snd (Registration.agents agents))) ∧
  (requireAuth authorization agents = inr agent ↔
   validateApiKey authorization agents = Valid agent) ∧
  requireAuth authorization agents ≠ inl "Authentication failed".
Proof.
  pose proof (valid_bearer authorization agents agent) as Hvalid.
  split; [split; [exact Hvalid |] |].
  { intros (key & -> & Hfind). rewrite validate_bearer, Hfind. reflexivity. }
  split.
  { intros H. destruct (Hvalid H) as (key & -> & Hfind).
    unfold Registration.findAgentByApiKey in Hfind.
    apply find_some in Hfind as [Hin Hkey].
    apply String.eqb_eq in Hkey. rewrite Hkey. auto. }
  unfold requireAuth.
  destruct (validateApiKey authorization agents) as [error | a] eqn:Hv.
  - split; [split; discriminate |].
    unfold validateApiKey in Hv. destruct authorization as [h |].
    + destruct (String.eqb h "" || negb (String.prefix "Bearer " h)).
      * injection Hv as <-. discriminate.
      * destruct (Registration.findAgentByApiKey _ agents); [discriminate |].
        injection Hv as <-. discriminate.
    + injection Hv as <-. discriminate.
  - split; [split; congruence | discriminate].
Qed.

Lemma find_map_set_new {V} (f : V → bool) (k : string) (v : V)
    (m : list (string * V)) :
  find f (map snd m) = None → f v = true →
  find f (map snd (map_set k v m)) = Some v.
Proof.
  intros Hnone Hv. induction m as [| [k' v'] m IH]; simpl in *.
  - rewrite Hv. reflexivity.
  - destruct (f v') eqn:Hv'; [discriminate Hnone |].
    destruct (String.eqb k' k); simpl.
    + rewrite Hv. reflexivity.
    + rewrite Hv'. exact (IH Hnone).
Qed.

Lemma find_map_set_old {V} (f : V → bool) (k : string) (v a : V)
    (m : list (string * V)) :
  map_get k m = None → find f (map snd m) = Some a →
  find f (map snd (map_set k v m)) = Some a.
Proof.
  unfold map_get. induction m as [| [k' v'] m IH]; simpl; [discriminate |].
  destruct (String.eqb k' k); [discriminate |]. simpl.
  destruct (f v'); [auto |]. exact IH.
Qed.

(** What [POST /api/auth/register] answers, for every body and storage. *)
Lemma register_cases uuid1 uuid2 now request agents :
  match Registration.POST uuid1 uuid2 now request agents with
  | (Registration.ErrorReply status error, agents') =>
      agents' = agents ∧ (status = 400 ∨ status = 409)
  | (Registration.Registered status agentId apiKey message, agents') =>
      status = 201 ∧
      agentId = "agent_" +:+ uuid1 ∧
      apiKey = "sk_test_" +:+ Registration.remove_dashes uuid2 ∧
      ∃ fields n,
        request = Some (JObj fields) ∧
        Registration.get_field "name" fields = Some (JStr n) ∧
        Registration.name_accepted n = true ∧
        Registration.findAgentByName n agents = None ∧
        message = "Welcome " +:+ n +:+ "! Use this API key for all requests." ∧
        agents' = Registration.addAgent
                    {| Registration.id := agentId; Registration.name := n;
                       Registration.apiKey := apiKey;
                       Registration.createdAt := now |} agents
  end.
Proof.
  assert (Hname : ∀ n,
    match Registration.register_name uuid1 uuid2 now n agents with
    | (Registration.ErrorReply status error, agents') =>
        agents' = agents ∧ (status = 400 ∨ status = 409)
    | (Registration.Registered status agentId apiKey message, agents') =>
        status = 201 ∧
        agentId = "agent_" +:+ uuid1 ∧
        apiKey = "sk_test_" +:+ Registration.remove_dashes uuid2 ∧
        ∃ s,
          n = Some (JStr s) ∧
          Registration.name_accepted s = true ∧
          Registration.findAgentByName s agents = None ∧
          message = "Welcome " +:+ s +:+ "! Use this API key for all requests." ∧
          agents' = Registration.addAgent
                      {| Registration.id := agentId; Registration.name := s;
                         Registration.apiKey := apiKey;
                         Registration.createdAt := now |} agents
    end).
  { intros n. unfold Registration.register_name.
    destruct n as [[| | | s | |] |]; try (split; [reflexivity | left; reflexivity]).
    destruct (String.eqb s "" || (String.length (Registration.trim s) =? 0)%nat)
      eqn:E1; [split; [reflexivity | left; reflexivity] |].
    destruct (50 <? String.length s)%nat eqn:E2;
      [split; [reflexivity | left; reflexivity] |].
    destruct (Registration.findAgentByName s agents) eqn:E3;
      [split; [reflexivity | right; reflexivity] |].
    split; [reflexivity |]. split; [reflexivity |]. split; [reflexivity |].
    exists s. split; [reflexivity |]. split.
    { unfold Registration.name_accepted. rewrite E1, E2. reflexivity. }
    split; [exact E3 |]. split; reflexivity. }
  unfold Registration.POST.
  destruct request as [[| | | | | fields] |];
    try (split; [reflexivity | left; reflexivity]);
    try (specialize (Hname None);
         destruct (Registration.register_name uuid1 uuid2 now None agents)
           as [[status error | status agentId apiKey message] agents'];
         [exact Hname |
          destruct Hname as (_ & _ & _ & s & Hs & _); discriminate Hs]).
  specialize (Hname (Registration.get_field "name" fields)).
  destruct (Registration.register_name uuid1 uuid2 now _ agents)
    as [[status error | status agentId apiKey message] agents'];
    [exact Hname |].
  destruct Hname as (H1 & H2 & H3 & s & Hs & Hrest).
  split; [exact H1 |]. split; [exact H2 |]. split; [exact H3 |].
  exists fields, s. split; [reflexivity |]. split; [exact Hs | exact Hrest].
Qed.

(** X16.  Registration and authentication fit together: after a
    registration that was answered 201, a request that presents the returned
    key as ["Bearer <apiKey>"] is accepted as the new agent, provided no
    agent stored before had the same key, and [POST /api/test] echoes its
    body together with the returned agent id and the registered name.  If
    the new agent id was not in use either, every request that was accepted
    before the registration is still accepted, as the same agent. *)
Theorem registered_key_validates uuid1 uuid2 now request agents
    status agentId apiKey message agents' :
  Registration.POST uuid1 uuid2 now request agents
    = (Registration.Registered status agentId apiKey message, agents') →
  Registration.findAgentByApiKey apiKey agents = None →
  ∃ agent,
    validateApiKey (Some ("Bearer " +:+ apiKey)) agents' = Valid agent ∧
    Registration.id agent = agentId ∧
    Registration.apiKey agent = apiKey ∧
    (∃ fields, request = Some (JObj fields) ∧
       Registration.get_field "name" fields
         = Some (JStr (Registration.name agent))) ∧
    (∀ body time,
       test_POST (Some ("Bearer " +:+ apiKey)) (Some body) time agents'
         = TestOk "Test successful" agentId (Registration.name agent) body time) ∧
    (map_get agentId (Registration.agents agents) = None →
     ∀ authorization earlier,
       validateApiKey authorization agents = Valid earlier →
       validateApiKey authorization agents' = Valid earlier).
Proof.
  intros Hpost Hfresh.
  pose proof (register_cases uuid1 uuid2 now request agents) as Hcases.
  rewrite Hpost in Hcases.
  destruct Hcases as (_ & _ & _ & fields & n & Hrequest & Hfield & _ & _ & _
                      & Hagents).
  set (agent := {| Registration.id := agentId; Registration.name := n;
                   Registration.apiKey := apiKey;
                   Registration.createdAt := now |}) in *.
  assert (Hfind : Registration.findAgentByApiKey apiKey agents' = Some agent).
  { rewrite Hagents. unfold Registration.findAgentByApiKey, Registration.addAgent.
    cbn [Registration.agents]. apply find_map_set_new; [exact Hfresh |].
    apply String.eqb_refl. }
  assert (Hvalid : validateApiKey (Some ("Bearer " +:+ apiKey)) agents'
                   = Valid agent).
  { rewrite validate_bearer, Hfind. reflexivity. }
  exists agent. split; [exact Hvalid |].
  split; [reflexivity |]. split; [reflexivity |].
  split; [exists fields; split; assumption |].
  split.
  { intros body time. unfold test_POST. rewrite Hvalid. reflexivity. }
  intros Hid authorization earlier Hearlier.
  destruct (valid_bearer authorization agents earlier Hearlier)
    as (key & -> & Hkey).
  rewrite validate_bearer.
  assert (Registration.findAgentByApiKey key agents' = Some earlier) as ->;
    [| reflexivity].
  rewrite Hagents. unfold Registration.findAgentByApiKey, Registration.addAgent.
  cbn [Registration.agents]. apply find_map_set_old; assumption.
Qed.

Lemma registered_key_validates_witness :
  let request := Some (JObj [("name", JStr "TestAgent123")]) in
  let posted :=
    Registration.POST "1b9d6bcd-bbfd" "4b2d-9b5d" "2024-01-01T00:00:00.000Z"
                      request Registration.empty_storage in
  ∃ agent,
    validateApiKey (Some ("Bearer " +:+ "sk_test_4b2d9b5d")) (snd posted)
      = Valid agent ∧
    Registration.id agent = "agent_1b9d6bcd-bbfd" ∧
    Registration.apiKey agent = "sk_test_4b2d9b5d" ∧
    (∃ fields, request = Some (JObj fields) ∧
       Registration.get_field "name" fields
         = Some (JStr (Registration.name agent))) ∧
    (∀ body time,
       test_POST (Some ("Bearer " +:+ "sk_test_4b2d9b5d")) (Some body) time
                 (snd posted)
         = TestOk "Test successful" "agent_1b9d6bcd-bbfd"
                  (Registration.name agent) body time) ∧
    (map_get "agent_1b9d6bcd-bbfd"
             (Registration.agents Registration.empty_storage) = None →
     ∀ authorization earlier,
       validateApiKey authorization Registration.empty_storage = Valid earlier →
       validateApiKey authorization (snd posted) = Valid earlier).
Proof.
  intros request posted.
  apply (registered_key_validates "1b9d6bcd-bbfd" "4b2d-9b5d"
           "2024-01-01T00:00:00.000Z" request Registration.empty_storage
           201 "agent_1b9d6bcd-bbfd" "sk_test_4b2d9b5d"
           "Welcome TestAgent123! Use this API key for all requests.").
  - vm_compute. reflexivity.
  - reflexivity.
Defined.

Lemma names_map_set {V} (f : V → string) (k : string) (v : V)
    (m : list (string * V)) :
  NoDup (map f (map snd m)) → f v ∉ map f (map snd m) →
  NoDup (map f (map snd (map_set k v m))).
Proof.
  induction m as [| [k' v'] m IH]; simpl; intros Hnodup Hnew.
  - apply NoDup_singleton.
  - apply NoDup_cons in Hnodup as [Hv' Hnodup].
    apply not_elem_of_cons in Hnew as [Hne Hnew].
    destruct (String.eqb k' k); simpl.
    + apply NoDup_cons. split; assumption.
    + apply NoDup_cons. split; [| apply IH; assumption].
      intros Hin. apply list_elem_of_In, in_map_iff in Hin as (x & Hx & Hin).
      apply RegistrationFacts.values_map_set in Hin as [-> | Hin].
      * congruence.
      * apply Hv'. apply list_elem_of_In, in_map_iff. eauto.
Qed.

Lemma find_unique {V} (f : V → string) (a : V) (l : list V) :
  NoDup (map f l) → In a l →
  find (λ x, String.eqb (f x) (f a)) l = Some a.
Proof.
  induction l as [| x l IH]; simpl; intros Hnodup Hin; [contradiction |].
  apply NoDup_cons in Hnodup as [Hx Hnodup].
  destruct Hin as [-> | Hin].
  - rewrite String.eqb_refl. reflexivity.
  - destruct (String.eqb_spec (f x) (f a)) as [Heq | _]; [| auto].
    exfalso. apply Hx. rewrite Heq.
    apply list_elem_of_In, in_map_iff. eauto.
Qed.

(** X17.  In every storage that the registration route can build from an
    empty one, no two agents have the same name, and [findAgentByName]
    applied to the name of a stored agent returns that agent.  This holds
    whatever the generated ids are, also when an id is generated twice and
    [addAgent] replaces an agent. *)
Theorem registered_names_unique (agents : Registration.Storage) :
  Registration.reachable agents →
  NoDup (map Registration.name (map snd (Registration.agents agents))) ∧
  ∀ agent, In agent (map snd (Registration.agents agents)) →
           Registration.findAgentByName (Registration.name agent) agents
             = Some agent.
Proof.
  intros Hreach.
  assert (Hnodup : NoDup (map Registration.name
                              (map snd (Registration.agents agents)))).
  { induction Hreach as [| agents uuid1 uuid2 now request _ IH].
    - apply NoDup_nil_2.
    - pose proof (register_cases uuid1 uuid2 now request agents) as Hcases.
      destruct (Registration.POST uuid1 uuid2 now request agents)
        as [[status error | status agentId apiKey message] agents'].
      + destruct Hcases as [-> _]. exact IH.
      + destruct Hcases as (_ & _ & _ & fields & n & _ & _ & _ & Hfree & _ & ->).
        simpl. apply (names_map_set Registration.name); [exact IH |].
        simpl. intros Hin.
        apply list_elem_of_In, in_map_iff in Hin as (x & Hx & Hin).
        unfold Registration.findAgentByName in Hfree.
        pose proof (find_none _ _ Hfree x Hin) as Hno. simpl in Hno.
        rewrite Hx, String.eqb_refl in Hno. discriminate Hno. }
  split; [exact Hnodup |].
  intros agent Hin. unfold Registration.findAgentByName.
  apply (find_unique Registration.name); assumption.
Qed.

Lemma registered_names_unique_witness :
  let agents :=
    snd (Registration.POST "6ec0bd7f-11c0" "43da-975e" "2024-01-01T00:00:05.000Z"
           (Some (JObj [("name", JStr "OtherAgent")]))
           (snd (Registration.POST "1b9d6bcd-bbfd" "4b2d-9b5d"
                   "2024-01-01T00:00:00.000Z"
                   (Some (JObj [("name", JStr "TestAgent123")]))
                   Registration.empty_storage))) in
  length (Registration.agents agents) = 2%nat ∧
  NoDup (map Registration.name (map snd (Registration.agents agents))) ∧
  ∀ agent, In agent (map snd (Registration.agents agents)) →
           Registration.findAgentByName (Registration.name agent) agents
             = Some agent.
Proof.
  intros agents. split; [reflexivity |].
  apply registered_names_unique.
  apply Registration.reachable_POST, Registration.reachable_POST,
    Registration.reachable_start.
Defined.


(** X19.  [POST /api/sessions/join] answers 401 with the message of
    [validateApiKey] and changes nothing when the key is not accepted.
    Otherwise it answers 201 and stores a waiting session under
    ["session_<uuid>"], owned by the agent of the key; [getSession] returns
    it, the other sessions and the agents are as before, and the map that
    the state route reads is not touched. *)
Theorem join_session_owned authorization uuid now1 now2 url app :
  match validateApiKey authorization (storage app) with
  | Invalid error =>
      join_POST authorization uuid now1 now2 url app = (ErrorReply 401 error, app)
  | Valid agent =>
      ∃ view app',
        join_POST authorization uuid now1 now2 url app
          = (StateReply 201 view, app') ∧
        v_sessionId view = "session_" +:+ uuid ∧
        v_status view = waiting ∧
        v_availableActions view = ["wait"; "leave"] ∧
        getSession ("session_" +:+ uuid) app'
          = Some {| id := "session_" +:+ uuid;
                    agentId := Registration.id agent;
                    agentName := Registration.name agent;
                    status := waiting;
                    createdAt := now1; lastActivity := now2 |} ∧
        (∀ other, other ≠ "session_" +:+ uuid →
                  getSession other app' = getSession other app) ∧
        storage app' = storage app ∧
        route_sessions app' = route_sessions app
  end.
Proof.
  unfold join_POST.
  destruct (validateApiKey authorization (storage app)) as [error | agent];
    [reflexivity |].
  eexists _, _. split; [reflexivity |].
  cbn [v_sessionId v_status v_availableActions].
  split; [reflexivity |]. split; [reflexivity |]. split; [reflexivity |].
  unfold getSession, addSession. cbn [sessions storage route_sessions id].
  split; [apply map_get_set_eq |].
  split; [intros other Hne; apply map_get_set_ne; exact Hne |].
  split; reflexivity.
Qed.

Lemma reachable_route_sessions app :
  reachable app → route_sessions app = [].
Proof.
  induction 1 as [| app uuid1 uuid2 now request _ IH
                  | app authorization uuid now1 now2 url _ IH
                  | app authorization sessionId now url _ IH].
  - reflexivity.
  - unfold register_POST.
    destruct (Registration.POST uuid1 uuid2 now request (storage app)).
    exact IH.
  - unfold join_POST.
    destruct (validateApiKey authorization (storage app)); exact IH.
  - unfold state_GET.
    destruct (validateApiKey authorization (storage app)); [exact IH |].
    rewrite IH. exact IH.
Qed.

(** X20.  The state route never finds a session.  The map it reads is
    created empty by its own module and nothing adds to it, while
    [POST /api/sessions/join] stores sessions in the [storage] singleton:
    in every state the server can reach, [GET /api/sessions/<id>/state]
    answers 401 to a request whose key is not accepted and 404
    ["Session not found"] to every other request, and changes nothing.  In
    particular the agent that has just been answered 201 by the join route
    gets 404 for the session id of that answer. *)
Theorem state_route_finds_no_session app authorization sessionId now url :
  reachable app →
  state_GET authorization sessionId now url app
    = (match validateApiKey authorization (storage app) with
       | Invalid error => ErrorReply 401 error
       | Valid _ => ErrorReply 404 "Session not found"
       end, app) ∧
  ∀ uuid now1 now2 view app',
    join_POST authorization uuid now1 now2 url app = (StateReply 201 view, app') →
    getSession (v_sessionId view) app' ≠ None ∧
    state_GET authorization (v_sessionId view) now url app'
      = (ErrorReply 404 "Session not found", app').
Proof.
  intros Hreach.
  pose proof (reachable_route_sessions app Hreach) as Hempty.
  split.
  - unfold state_GET.
    destruct (validateApiKey authorization (storage app)); [reflexivity |].
    rewrite Hempty. reflexivity.
  - intros uuid now1 now2 view app' Hjoin. unfold join_POST in Hjoin.
    destruct (validateApiKey authorization (storage app)) as [error | agent]
      eqn:Hvalid; [discriminate Hjoin |].
    injection Hjoin as <- <-. cbn [v_sessionId]. split.
    + unfold getSession, addSession. cbn [sessions id].
      rewrite map_get_set_eq. discriminate.
    + unfold state_GET, addSession. cbn [storage route_sessions].
      rewrite Hvalid, Hempty. reflexivity.
Qed.

Lemma state_route_finds_no_session_witness :
  let authorization := Some "Bearer sk_test_4b2d9b5d" in
  reachable app_one_agent ∧
  fst (state_GET authorization "session_7" "2024-01-01T00:00:09.000Z" None
                 app_one_agent)
    = ErrorReply 404 "Session not found" ∧
  ∀ uuid now1 now2 view app',
    join_POST authorization uuid now1 now2 None app_one_agent
      = (StateReply 201 view, app') →
    getSession (v_sessionId view) app' ≠ None ∧
    state_GET authorization (v_sessionId view) "2024-01-01T00:00:09.000Z" None
              app'
      = (ErrorReply 404 "Session not found", app').
Proof.
  intros authorization.
  assert (Hreach : reachable app_one_agent).
  { apply reachable_register, reachable_start. }
  split; [exact Hreach |].
  destruct (state_route_finds_no_session app_one_agent authorization "session_7"
              "2024-01-01T00:00:09.000Z" None Hreach) as [Hstate Hjoined].
  split; [rewrite Hstate; reflexivity | exact Hjoined].
Defined.

(** X21.  Whatever the map of the state route holds, the route shows a
    session only to its owner: a 200 answer means that the key was accepted,
    that the map has a session under the requested id and that the
    [agentId] of that session is the id of the agent of the key; the answer
    reports the status of that session with the actions that go with it, and
    the only change is the [lastActivity] of that session.  A session of
    another agent is answered 403 and left as it is. *)
Theorem state_route_owner_only authorization sessionId now url app agent session :
  validateApiKey authorization (storage app) = Valid agent →
  map_get sessionId (route_sessions app) = Some session →
  if String.eqb (agentId session) (Registration.id agent)
  then ∃ view app',
         state_GET authorization sessionId now url app
           = (StateReply 200 view, app') ∧
         v_sessionId view = id session ∧
         v_status view = status session ∧
         v_availableActions view
           = match status session with
             | waiting => ["wait"; "leave"]
             | active => ["make_move"; "forfeit"]
             | complete => ["view_result"]
             end ∧
         (v_turn view = Some (Registration.name agent) ↔ status session = active) ∧
         (v_result view ≠ None ↔ status session = complete) ∧
         map_get sessionId (route_sessions app') = Some (touch now session) ∧
         (∀ other, other ≠ sessionId →
            map_get other (route_sessions app')
              = map_get other (route_sessions app)) ∧
         storage app' = storage app ∧
         sessions app' = sessions app
  else state_GET authorization sessionId now url app
         = (ErrorReply 403 "Not your session", app).
Proof.
  intros Hvalid Hsession. unfold state_GET. rewrite Hvalid, Hsession.
  destruct (String.eqb (agentId session) (Registration.id agent));
    [| reflexivity].
  cbn [negb]. eexists _, _. split; [reflexivity |].
  cbn [v_sessionId v_status v_availableActions v_turn v_result
       storage sessions route_sessions].
  split; [reflexivity |]. split; [reflexivity |]. split; [reflexivity |].
  split; [destruct (status session); split; congruence |].
  split; [destruct (status session); split; congruence |].
  split; [apply map_get_set_eq |].
  split; [intros other Hne; apply map_get_set_ne; exact Hne |].
  split; reflexivity.
Qed.

Lemma state_route_owner_only_witness :
  ∃ view app',
    state_GET (Some "Bearer sk_test_4b2d9b5d") "session_7"
              "2024-01-01T00:00:09.000Z" None app_route_session
      = (StateReply 200 view, app') ∧
    v_status view = waiting ∧
    v_availableActions view = ["wait"; "leave"].
Proof.
  pose proof (state_route_owner_only (Some "Bearer sk_test_4b2d9b5d") "session_7"
                "2024-01-01T00:00:09.000Z" None app_route_session
                {| Registration.id := "agent_1b9d6bcd-bbfd";
                   Registration.name := "TestAgent123";
                   Registration.apiKey := "sk_test_4b2d9b5d";
                   Registration.createdAt := "2024-01-01T00:00:00.000Z" |}
                {| id := "session_7"; agentId := "agent_1b9d6bcd-bbfd";
                   agentName := "TestAgent123"; status := waiting;
                   createdAt := "2024-01-01T00:00:01.000Z";
                   lastActivity := "2024-01-01T00:00:01.000Z" |}
                eq_refl eq_refl) as H.
  cbv beta iota in H. change (String.eqb _ _) with true in H. cbv iota in H.
  destruct H as (view & app' & Hget & _ & Hstatus & Hactions & _).
  exists view, app'. auto.
Defined.

End SessionsFacts.

(** * Sessions of the state manager *)

(** X22.  [updateSession] throws ['Session <id> not found'] for an unknown
    id and changes nothing.  For a known session it stamps [updatedAt] with
    the clock, whatever the updates contain, and so keeps the session alive:
    a sweep that reads a clock at most [maxAge] later leaves the session in
    place, and [getSession] returns it. *)
Theorem updateSession_keeps_alive env sessionId updates maxAge w :
  let updated := updateSession env sessionId updates w in
  let swept := snd (cleanup env maxAge (snd updated)) in
  match w_sessions w !! sessionId with
  | None =>
      updated = (Throw ("Session " +:+ sessionId +:+ " not found"), w)
  | Some session =>
      fst updated = Normal tt ∧
      ∃ session',
        fst (getSession sessionId (snd updated)) = Normal (Some session') ∧
        s_updatedAt session' = date_now env (w_ticks w) ∧
        s_id session' = default (s_id session) (sd_id updates) ∧
        s_createdAt session'
          = default (s_createdAt session) (sd_createdAt updates) ∧
        (∀ other, other ≠ sessionId →
           fst (getSession other (snd updated)) = fst (getSession other w)) ∧
        (date_now env (S (w_ticks w)) - date_now env (w_ticks w)
           ≤ default 3600000 maxAge →
         fst (getSession sessionId swept) = Normal (Some session')) ∧
        (date_now env (S (w_ticks w)) - date_now env (w_ticks w)
           > default 3600000 maxAge →
         fst (getSession sessionId swept) = Normal None)
  end.
Proof.
  intros updated swept. subst updated swept. unfold updateSession.
  destruct (w_sessions w !! sessionId) as [session |] eqn:Hsession;
    [| reflexivity].
  unfold bind, Date_now, modify, getSession, gets. cbn [fst snd].
  split; [reflexivity |]. eexists.
  cbn [w_sessions set_sessions set_ticks].
  split; [rewrite lookup_insert_eq; reflexivity |].
  cbn [s_updatedAt s_id s_createdAt].
  split; [reflexivity |]. split; [reflexivity |]. split; [reflexivity |].
  split; [intros other Hne; rewrite lookup_insert_ne by congruence; reflexivity |].
  change (w_sessions (snd (cleanup env maxAge ?w1)))
    with (sweep_sessions (date_now env (w_ticks w1)) (default 3600000 maxAge)
                         (w_sessions w1)).
  cbn [w_sessions w_ticks set_sessions set_ticks].
  rewrite sweep_sessions_lookup, lookup_insert_eq.
  unfold session_expired. cbn [s_updatedAt].
  destruct (Z.gtb_spec (date_now env (S (w_ticks w)) - date_now env (w_ticks w))
                       (default 3600000 maxAge)).
  - split; [lia | reflexivity].
  - split; [reflexivity | lia].
Qed.

(** X24.  [createSession] stores the session under [sessionId], in place
    of any session stored there, and [getSession] returns it: its [id],
    [createdAt] and [updatedAt] are those of [sessionData] where it has
    them, and otherwise [sessionId] and two successive readings of the clock.
    The key is [sessionId] also when [sessionData] carries another [id].
    Other sessions are kept, and an [updateSession] of the new session does
    not throw. *)
Theorem createSession_getSession env sessionId sessionData updates w :
  let created := snd (createSession env sessionId sessionData w) in
  fst (createSession env sessionId sessionData w) = Normal tt ∧
  fst (getSession sessionId created)
    = Normal (Some
        {| s_id := default sessionId (sd_id sessionData);
           s_createdAt := default (date_now env (w_ticks w))
                                  (sd_createdAt sessionData);
           s_updatedAt := default (date_now env (S (w_ticks w)))
                                  (sd_updatedAt sessionData) |}) ∧
  (∀ other, other ≠ sessionId →
     fst (getSession other created) = fst (getSession other w)) ∧
  fst (updateSession env sessionId updates created) = Normal tt ∧
  w_tasks created = w_tasks w ∧
  w_agentStatus created = w_agentStatus w.
Proof.
  intros created. subst created.
  unfold createSession, updateSession, getSession, bind, Date_now, modify, gets.
  cbn [fst snd w_sessions w_ticks set_sessions set_ticks].
  split; [reflexivity |].
  split; [rewrite lookup_insert_eq; reflexivity |].
  split; [intros other Hne; rewrite lookup_insert_ne by congruence; reflexivity |].
  rewrite lookup_insert_eq. auto.
Qed.

(** * The researcher and the coordinator *)

Lemma replace_first_unfold (pattern s : string) :
  Researcher.replace_first pattern s =
  if String.prefix pattern s
  then String.substring (String.length pattern)
                        (String.length s - String.length pattern) s
  else match s with
       | EmptyString => EmptyString
       | String c s' => String c (Researcher.replace_first pattern s')
       end.
Proof. destruct s; reflexivity. Qed.

Lemma replace_first_prefix (pattern rest : string) :
  Researcher.replace_first pattern (pattern +:+ rest) = rest.
Proof.
  rewrite replace_first_unfold, SessionsFacts.prefix_app.
  apply SessionsFacts.substring_app.
Qed.

(** X23.  The researcher recovers the query of the user from the subtask
    it is sent: the coordinator's research subtask has no [query] property
    and the description ["Gather information about: <query>"], from which
    the handler of the researcher removes the first occurrence of the
    prefix; the result is the query itself, also when the query contains
    the prefix again. *)
Theorem researcher_recovers_query (query : string) (depth : JSON) :
  ∃ spec rest,
    decomposeQuery query depth = spec :: rest ∧
    sp_type spec = research ∧
    Researcher.task_query None (sp_description spec) = query.
Proof.
  exists (research_spec query).
  unfold decomposeQuery.
  destruct (is_string "comprehensive" depth || is_string "detailed" depth);
    eexists; (split; [reflexivity |]); (split; [reflexivity |]);
    apply replace_first_prefix.
Qed.
